(** * Monitrix: availability detection and downtime aggregation

    A shallow embedding of [calculateStats] (internal/api/server.go) and
    of the data it consumes ([monitor.PingResult], [storage.LogEntry]),
    followed by the properties of the aggregation that the specification
    states.

    Conventions of the embedding:
    - [time.Time] is the number of nanoseconds elapsed since Go's zero
      [Time]; [time.Duration] is a signed 64-bit count of nanoseconds.
    - Go's [int] and [int64] are integers in [Z]; every arithmetic
      operation on them is followed by its two's-complement wrap-around.
    - A [float64] value is the rational it denotes; a floating-point
      operation is the exact operation followed by the rounding of IEEE 754
      binary64, to nearest with ties to even (infinities and NaN cannot
      arise from the operands [calculateStats] uses).
    - [time.Now()] is an explicit argument [now].
    - A Go slice is a list ([nil] and the empty slice are both [[]]), a
      pointer that may be [nil] is an [option]. *)

From Stdlib Require Import ZArith QArith Qround Qpower Lia Lqa.
From Stdlib Require Import Ascii.
From stdpp Require Import base list sorting strings pretty gmap.

#[local] Open Scope Z_scope.

(** ** Machine integers *)

Definition int64_wrap (z : Z) : Z := (z + 2 ^ 63) mod 2 ^ 64 - 2 ^ 63.

Definition MaxInt64 : Z := 2 ^ 63 - 1.
Definition MinInt64 : Z := - 2 ^ 63.

(** Go's [int] is 64 bits wide on the platforms the program is built
    for. *)
Definition int_wrap (z : Z) : Z := int64_wrap z.
Definition MaxInt : Z := MaxInt64.

(** ** float64 *)

Module float64.

(** The integer nearest to [x]; halfway between two integers, the even
    one. *)
Definition roundHalfEven (x : Q) : Z :=
  let f := Qfloor x in
  match (x - inject_Z f ?= 1 # 2)%Q with
  | Lt => f
  | Gt => f + 1
  | Eq => if Z.even f then f else f + 1
  end.

(** For [x > 0], the exponent [k] with [2^k <= x < 2^(k+1)]. *)
Definition ilog2 (x : Q) : Z :=
  let k := Z.log2 (Qnum x) - Z.log2 (Zpos (Qden x)) in
  if Qle_bool (2 ^ k) x then k else k - 1.

(** For [x > 0], the exponent of the unit in the last place of the
    binary64 numbers around [x]: 53 bits of precision, and [2^-1074] the
    smallest positive number. *)
Definition ulpExponent (x : Q) : Z := Z.max (ilog2 x - 52) (-1074).

(** Rounding of a positive rational to a multiple of its unit in the
    last place. *)
Definition roundMagnitude (x : Q) : Q :=
  let e := ulpExponent x in
  (inject_Z (roundHalfEven (x / 2 ^ e)) * 2 ^ e)%Q.

(** Rounding to the nearest binary64 number, ties to even. *)
Definition round (x : Q) : Q :=
  Qred (match (x ?= 0)%Q with
        | Eq => 0
        | Gt => roundMagnitude x
        | Lt => - roundMagnitude (- x)
        end)%Q.

(** [float64(n)] for an integer [n]. *)
Definition of_int (n : Z) : Q := round (inject_Z n).
Definition add (x y : Q) : Q := round (x + y).
Definition mul (x y : Q) : Q := round (x * y).
Definition div (x y : Q) : Q := round (x / y).

(** [int64(x)] for a float [x]: the fractional part is discarded
    (truncation towards zero). *)
Definition to_int64 (x : Q) : Z := Z.quot (Qnum x) (Zpos (Qden x)).

End float64.

(** ** Package time *)

Module time.

Definition Time : Type := Z.
Definition Duration : Type := Z.

Definition Second : Duration := 1000000000.
Definition minDuration : Duration := MinInt64.
Definition maxDuration : Duration := MaxInt64.

(** [t.Sub(u)]: the difference [t - u], saturated to the range of
    [Duration]. *)
Definition Sub (t u : Time) : Duration :=
  let d := t - u in
  if d <? minDuration then minDuration
  else if maxDuration <? d then maxDuration
  else d.

(** [time.Since(t)] is [time.Now().Sub(t)]. *)
Definition Since (now t : Time) : Duration := Sub now t.

(** [d.Seconds()]:
    [sec := d / Second; nsec := d % Second;
     return float64(sec) + float64(nsec)/1e9]. *)
Definition Seconds (d : Duration) : Q :=
  let sec := Z.quot d Second in
  let nsec := Z.rem d Second in
  float64.add (float64.of_int sec)
              (float64.div (float64.of_int nsec) 1000000000%Q).

(** [t.Before(u)] and [t.After(u)]: strictly earlier, strictly later. *)
Definition Before (t u : Time) : bool := t <? u.
Definition After (t u : Time) : bool := u <? t.

End time.

(** ** Package monitor *)

Module monitor.

Record PingResult : Type := {
  Host : string;
  Success : bool;
  Latency : Z;
  Error : string;
  Timestamp : time.Time
}.

End monitor.

(** ** Package storage *)

Module storage.

Record LogEntry : Type := {
  Timestamp : time.Time;
  Results : list monitor.PingResult
}.

End storage.

(** ** Package api *)

Record DowntimeEvent : Type := {
  StartTime : time.Time;
  EndTime : option time.Time;
  Duration : Z;
  IsOngoing : bool;
  FailedHosts : list string
}.

Record Stats : Type := {
  CurrentStatus : string;
  TotalChecks : Z;
  OnlineChecks : Z;
  OfflineChecks : Z;
  UptimePercentage : Q;
  TotalDowntimeHours : Q;
  DowntimeEvents : list DowntimeEvent;
  RecentDowntime : option DowntimeEvent;
  TimeSinceLastCheck : option time.Time
}.

(** The local variables of [calculateStats] that live across the
    iterations of its main loop. *)
Record LoopState : Type := {
  downtimeEvents : list DowntimeEvent;
  onlineChecks : Z;
  offlineChecks : Z;
  totalDowntimeSeconds : Z;
  lastStatus : bool;
  downtimeStart : time.Time;
  downtimeFailedHosts : list string;
  lastCheckTime : option time.Time;
  currentStatus : string;
  statusInitialized : bool
}.

(** The declarations before the loop: zero values, and
    [currentStatus := "online"]. *)
Definition initialState : LoopState := {|
  downtimeEvents := [];
  onlineChecks := 0;
  offlineChecks := 0;
  totalDowntimeSeconds := 0;
  lastStatus := false;
  downtimeStart := 0;
  downtimeFailedHosts := [];
  lastCheckTime := None;
  currentStatus := "online";
  statusInitialized := false
|}.

(** One iteration of the inner loop over [entry.Results], on the pair
    [(allFailed, failedHosts)]. *)
Definition scanResult (acc : bool * list string) (result : monitor.PingResult)
  : bool * list string :=
  let '(allFailed, failedHosts) := acc in
  if monitor.Success result
  then (false, failedHosts)
  else (allFailed, failedHosts ++ [monitor.Host result]).

(** The inner loop, from [allFailed := true] and a nil [failedHosts]. *)
Definition scanResults (results : list monitor.PingResult) : bool * list string :=
  fold_left scanResult results (true, []).

(** [internetOnline := !allFailed]. *)
Definition internetOnline (entry : storage.LogEntry) : bool :=
  negb (fst (scanResults (storage.Results entry))).

Definition failedHostsOf (entry : storage.LogEntry) : list string :=
  snd (scanResults (storage.Results entry)).

(** [downtimeEvents[i], downtimeEvents[j] = downtimeEvents[j], downtimeEvents[i]].
    Both reads happen before the writes.  The loop below only calls it
    with indices inside the slice, where Go's bounds check passes. *)
Definition swapAt {A : Type} (l : list A) (i j : nat) : list A :=
  match l !! i, l !! j with
  | Some x, Some y => <[j:=x]> (<[i:=y]> l)
  | _, _ => l
  end.

(** [for i := 0; i < len(l)/2; i++ { j := len(l) - 1 - i; swap }]. *)
Definition reverseInPlace {A : Type} (l : list A) : list A :=
  fold_left (fun l i => swapAt l i (length l - 1 - i))
            (seq 0 (Nat.div (length l) 2)) l.

(** A downtime interval is open: [statusInitialized && !lastStatus]. *)
Definition inDowntime (st : LoopState) : bool :=
  statusInitialized st && negb (lastStatus st).

(** [int64(d.Seconds())]. *)
Definition durationSeconds (d : time.Duration) : Z :=
  float64.to_int64 (time.Seconds d).

(** Assignment to one local variable. *)

Definition set_downtimeEvents (v : list DowntimeEvent) (st : LoopState) : LoopState :=
  {| downtimeEvents := v; onlineChecks := onlineChecks st;
     offlineChecks := offlineChecks st;
     totalDowntimeSeconds := totalDowntimeSeconds st;
     lastStatus := lastStatus st; downtimeStart := downtimeStart st;
     downtimeFailedHosts := downtimeFailedHosts st;
     lastCheckTime := lastCheckTime st; currentStatus := currentStatus st;
     statusInitialized := statusInitialized st |}.

Definition set_onlineChecks (v : Z) (st : LoopState) : LoopState :=
  {| downtimeEvents := downtimeEvents st; onlineChecks := v;
     offlineChecks := offlineChecks st;
     totalDowntimeSeconds := totalDowntimeSeconds st;
     lastStatus := lastStatus st; downtimeStart := downtimeStart st;
     downtimeFailedHosts := downtimeFailedHosts st;
     lastCheckTime := lastCheckTime st; currentStatus := currentStatus st;
     statusInitialized := statusInitialized st |}.

Definition set_offlineChecks (v : Z) (st : LoopState) : LoopState :=
  {| downtimeEvents := downtimeEvents st; onlineChecks := onlineChecks st;
     offlineChecks := v;
     totalDowntimeSeconds := totalDowntimeSeconds st;
     lastStatus := lastStatus st; downtimeStart := downtimeStart st;
     downtimeFailedHosts := downtimeFailedHosts st;
     lastCheckTime := lastCheckTime st; currentStatus := currentStatus st;
     statusInitialized := statusInitialized st |}.

Definition set_totalDowntimeSeconds (v : Z) (st : LoopState) : LoopState :=
  {| downtimeEvents := downtimeEvents st; onlineChecks := onlineChecks st;
     offlineChecks := offlineChecks st;
     totalDowntimeSeconds := v;
     lastStatus := lastStatus st; downtimeStart := downtimeStart st;
     downtimeFailedHosts := downtimeFailedHosts st;
     lastCheckTime := lastCheckTime st; currentStatus := currentStatus st;
     statusInitialized := statusInitialized st |}.

Definition set_lastStatus (v : bool) (st : LoopState) : LoopState :=
  {| downtimeEvents := downtimeEvents st; onlineChecks := onlineChecks st;
     offlineChecks := offlineChecks st;
     totalDowntimeSeconds := totalDowntimeSeconds st;
     lastStatus := v; downtimeStart := downtimeStart st;
     downtimeFailedHosts := downtimeFailedHosts st;
     lastCheckTime := lastCheckTime st; currentStatus := currentStatus st;
     statusInitialized := statusInitialized st |}.

Definition set_downtimeStart (v : time.Time) (st : LoopState) : LoopState :=
  {| downtimeEvents := downtimeEvents st; onlineChecks := onlineChecks st;
     offlineChecks := offlineChecks st;
     totalDowntimeSeconds := totalDowntimeSeconds st;
     lastStatus := lastStatus st; downtimeStart := v;
     downtimeFailedHosts := downtimeFailedHosts st;
     lastCheckTime := lastCheckTime st; currentStatus := currentStatus st;
     statusInitialized := statusInitialized st |}.

Definition set_downtimeFailedHosts (v : list string) (st : LoopState) : LoopState :=
  {| downtimeEvents := downtimeEvents st; onlineChecks := onlineChecks st;
     offlineChecks := offlineChecks st;
     totalDowntimeSeconds := totalDowntimeSeconds st;
     lastStatus := lastStatus st; downtimeStart := downtimeStart st;
     downtimeFailedHosts := v;
     lastCheckTime := lastCheckTime st; currentStatus := currentStatus st;
     statusInitialized := statusInitialized st |}.

Definition set_lastCheckTime (v : option time.Time) (st : LoopState) : LoopState :=
  {| downtimeEvents := downtimeEvents st; onlineChecks := onlineChecks st;
     offlineChecks := offlineChecks st;
     totalDowntimeSeconds := totalDowntimeSeconds st;
     lastStatus := lastStatus st; downtimeStart := downtimeStart st;
     downtimeFailedHosts := downtimeFailedHosts st;
     lastCheckTime := v; currentStatus := currentStatus st;
     statusInitialized := statusInitialized st |}.

Definition set_currentStatus (v : string) (st : LoopState) : LoopState :=
  {| downtimeEvents := downtimeEvents st; onlineChecks := onlineChecks st;
     offlineChecks := offlineChecks st;
     totalDowntimeSeconds := totalDowntimeSeconds st;
     lastStatus := lastStatus st; downtimeStart := downtimeStart st;
     downtimeFailedHosts := downtimeFailedHosts st;
     lastCheckTime := lastCheckTime st; currentStatus := v;
     statusInitialized := statusInitialized st |}.

Definition set_statusInitialized (v : bool) (st : LoopState) : LoopState :=
  {| downtimeEvents := downtimeEvents st; onlineChecks := onlineChecks st;
     offlineChecks := offlineChecks st;
     totalDowntimeSeconds := totalDowntimeSeconds st;
     lastStatus := lastStatus st; downtimeStart := downtimeStart st;
     downtimeFailedHosts := downtimeFailedHosts st;
     lastCheckTime := lastCheckTime st; currentStatus := currentStatus st;
     statusInitialized := v |}.

(** The body of the main loop, for one log entry, statement by
    statement. *)
Definition processEntry (st : LoopState) (entry : storage.LogEntry) : LoopState :=
  let '(allFailed, failedHosts) := scanResults (storage.Results entry) in
  let internetOnline := negb allFailed in
  let st := set_lastCheckTime (Some (storage.Timestamp entry)) st in
  let st :=
    if internetOnline then
      let st := set_onlineChecks (int_wrap (onlineChecks st + 1)) st in
      let st :=
        if statusInitialized st && negb (lastStatus st) then
          let endTime := storage.Timestamp entry in
          let duration := durationSeconds (time.Sub endTime (downtimeStart st)) in
          let st :=
            set_totalDowntimeSeconds
              (int64_wrap (totalDowntimeSeconds st + duration)) st in
          let downEvent :=
            {| StartTime := downtimeStart st;
               EndTime := Some endTime;
               Duration := duration;
               IsOngoing := false;
               FailedHosts := downtimeFailedHosts st |} in
          set_downtimeEvents (downtimeEvents st ++ [downEvent]) st
        else st in
      let st := set_lastStatus true st in
      set_currentStatus "online" st
    else
      let st := set_offlineChecks (int_wrap (offlineChecks st + 1)) st in
      let st :=
        if negb (statusInitialized st) || lastStatus st then
          let st := set_downtimeStart (storage.Timestamp entry) st in
          set_downtimeFailedHosts failedHosts st
        else st in
      let st := set_lastStatus false st in
      set_currentStatus "offline" st in
  set_statusInitialized true st.

(** [for _, entry := range logs { ... }] from a given state. *)
Definition runLoop (st : LoopState) (logs : list storage.LogEntry) : LoopState :=
  fold_left processEntry logs st.

(** The block after the loop, which reports a downtime that is still
    open. *)
Definition handleOngoing (now : time.Time) (st : LoopState) : LoopState :=
  if statusInitialized st && negb (lastStatus st)
     && bool_decide (is_Some (lastCheckTime st))
  then
    let duration := durationSeconds (time.Since now (downtimeStart st)) in
    let downEvent :=
      {| StartTime := downtimeStart st;
         EndTime := None;
         Duration := duration;
         IsOngoing := true;
         FailedHosts := downtimeFailedHosts st |} in
    let st := set_downtimeEvents (downtimeEvents st ++ [downEvent]) st in
    set_totalDowntimeSeconds (int64_wrap (totalDowntimeSeconds st + duration)) st
  else st.

Definition calculateStats (now : time.Time) (logs : list storage.LogEntry) : Stats :=
  let st := runLoop initialState logs in
  let st := handleOngoing now st in
  let totalChecks := Z.of_nat (length logs) in
  let uptimePercentage :=
    if 0 <? totalChecks
    then float64.mul
           (float64.div (float64.of_int (onlineChecks st))
                        (float64.of_int totalChecks))
           100%Q
    else 0%Q in
  let events := reverseInPlace (downtimeEvents st) in
  let recentDowntime :=
    if (0 <? length events)%nat then events !! 0%nat else None in
  {| CurrentStatus := currentStatus st;
     TotalChecks := totalChecks;
     OnlineChecks := onlineChecks st;
     OfflineChecks := offlineChecks st;
     UptimePercentage := uptimePercentage;
     TotalDowntimeHours :=
       float64.div (float64.of_int (totalDowntimeSeconds st)) 3600%Q;
     DowntimeEvents := events;
     RecentDowntime := recentDowntime;
     TimeSinceLastCheck := lastCheckTime st |}.

(** The event the loop appends when [entry] closes the interval that is
    open in [st]. *)
Definition closedEvent (st : LoopState) (entry : storage.LogEntry) : DowntimeEvent :=
  {| StartTime := downtimeStart st;
     EndTime := Some (storage.Timestamp entry);
     Duration :=
       durationSeconds (time.Sub (storage.Timestamp entry) (downtimeStart st));
     IsOngoing := false;
     FailedHosts := downtimeFailedHosts st |}.

(** The event the block after the loop appends for the interval that is
    still open in [st]. *)
Definition ongoingEvent (now : time.Time) (st : LoopState) : DowntimeEvent :=
  {| StartTime := downtimeStart st;
     EndTime := None;
     Duration := durationSeconds (time.Since now (downtimeStart st));
     IsOngoing := true;
     FailedHosts := downtimeFailedHosts st |}.

(** Vocabulary of the statements. *)

Definition online (e : storage.LogEntry) : Prop := internetOnline e = true.
Definition offline (e : storage.LogEntry) : Prop := internetOnline e = false.

(** The rounds before an offline run do not end offline: there is none, or
    the last one is online. *)
Definition endsOnline (pre : list storage.LogEntry) : Prop :=
  match last pre with
  | Some e => online e
  | None => True
  end.

(** Rounds in ascending order of timestamp (equal timestamps allowed). *)
Definition ascending (logs : list storage.LogEntry) : Prop :=
  Sorted Z.le (map storage.Timestamp logs).

(** [a] starts no later than [b]. *)
Definition startsBefore (a b : DowntimeEvent) : Prop :=
  StartTime a <= StartTime b.

(** Most recent first: every event starts no earlier than those after it. *)
Definition mostRecentFirst (events : list DowntimeEvent) : Prop :=
  StronglySorted (flip startsBefore) events.

(** What the ordering of the events rests on, after the rounds up to
    time [t]: the events are in order of start, none starts after [t],
    and an open interval starts no earlier than the events and no later
    than [t]. *)
Definition chronological (t : time.Time) (st : LoopState) : Prop :=
  StronglySorted startsBefore (downtimeEvents st)
  /\ Forall (fun ev => StartTime ev <= t) (downtimeEvents st)
  /\ (inDowntime st = true ->
      downtimeStart st <= t
      /\ Forall (fun ev => StartTime ev <= downtimeStart st) (downtimeEvents st)).

(** The number of rounds of [logs] whose verdict is [verdict]. *)
Definition countVerdict (verdict : bool) (logs : list storage.LogEntry) : Z :=
  Z.of_nat (length (List.filter (fun e => eqb (internetOnline e) verdict) logs)).

(** Two probe results that differ at most in what the aggregation does
    not read. *)
Definition sameProbe (r1 r2 : monitor.PingResult) : Prop :=
  monitor.Host r1 = monitor.Host r2 /\ monitor.Success r1 = monitor.Success r2.

Definition sameRound (e1 e2 : storage.LogEntry) : Prop :=
  storage.Timestamp e1 = storage.Timestamp e2
  /\ Forall2 sameProbe (storage.Results e1) (storage.Results e2).

(** The round [e] between [pre] and [post] is skipped: the counters, the
    status and the events are what they are without it. *)
Definition skipped (now : time.Time) (pre : list storage.LogEntry)
    (e : storage.LogEntry) (post : list storage.LogEntry) : Prop :=
  TotalChecks (calculateStats now (pre ++ e :: post)) =
    TotalChecks (calculateStats now (pre ++ post))
  /\ OnlineChecks (calculateStats now (pre ++ e :: post)) =
    OnlineChecks (calculateStats now (pre ++ post))
  /\ OfflineChecks (calculateStats now (pre ++ e :: post)) =
    OfflineChecks (calculateStats now (pre ++ post))
  /\ CurrentStatus (calculateStats now (pre ++ e :: post)) =
    CurrentStatus (calculateStats now (pre ++ post))
  /\ DowntimeEvents (calculateStats now (pre ++ e :: post)) =
    DowntimeEvents (calculateStats now (pre ++ post)).

Definition closed (ev : DowntimeEvent) : Prop :=
  IsOngoing ev = false /\ is_Some (EndTime ev).

(** ** Test data: the scenarios of the specification *)

Definition up (h : string) (t : time.Time) : monitor.PingResult :=
  {| monitor.Host := h; monitor.Success := true; monitor.Latency := 12;
     monitor.Error := ""; monitor.Timestamp := t |}.

Definition down (h : string) (t : time.Time) : monitor.PingResult :=
  {| monitor.Host := h; monitor.Success := false; monitor.Latency := 5000;
     monitor.Error := "i/o timeout"; monitor.Timestamp := t |}.

Definition round (t : time.Time) (rs : list (time.Time -> monitor.PingResult))
  : storage.LogEntry :=
  {| storage.Timestamp := t; storage.Results := map (fun r => r t) rs |}.

Definition sec (n : Z) : time.Time := n * time.Second.

(** ** Vocabulary of the further properties of the summary *)

(** The durations of [events] added up in [int64]. *)
Definition totalDuration (events : list DowntimeEvent) : Z :=
  int64_wrap (foldr (fun ev acc => Duration ev + acc) 0 events).

(** What the loop keeps true of its variables: the total is the sum of
    the durations of the events, the status names whether an interval is
    open, and an open interval has a last check. *)
Definition coherent (st : LoopState) : Prop :=
  totalDowntimeSeconds st = totalDuration (downtimeEvents st)
  /\ currentStatus st = (if inDowntime st then "offline" else "online")
  /\ (inDowntime st = true -> is_Some (lastCheckTime st)).

(** [a] is over when [b] begins. *)
Definition endsBefore (a b : DowntimeEvent) : Prop :=
  exists t, EndTime a = Some t /\ t <= StartTime b.

(** An event does not end before it starts and does not last a negative
    number of seconds. *)
Definition wellFormed (ev : DowntimeEvent) : Prop :=
  match EndTime ev with
  | Some t => StartTime ev <= t /\ 0 <= Duration ev
  | None => True
  end.

(** What keeps the intervals apart, after the rounds up to time [t]:
    the events are well formed and one after the other, all over by [t],
    and an open interval starts after all of them and no later than
    [t]. *)
Definition separated (t : time.Time) (st : LoopState) : Prop :=
  StronglySorted endsBefore (downtimeEvents st)
  /\ Forall wellFormed (downtimeEvents st)
  /\ Forall (fun ev => exists te, EndTime ev = Some te /\ te <= t) (downtimeEvents st)
  /\ (inDowntime st = true ->
      downtimeStart st <= t
      /\ Forall (fun ev => exists te, EndTime ev = Some te /\ te <= downtimeStart st)
                (downtimeEvents st)).

(** The number of maximal runs of offline rounds in [logs], where
    [prevOnline] tells whether the round before [logs] was online (or
    there was none). *)
Fixpoint offlineRuns (prevOnline : bool) (logs : list storage.LogEntry) : nat :=
  match logs with
  | [] => 0
  | e :: logs' =>
      (if negb (internetOnline e) && prevOnline then 1 else 0)
      + offlineRuns (internetOnline e) logs'
  end.

(** Two events that differ at most in their duration, which in the
    second is no shorter, and the same when the event is closed. *)
Definition grownTo (ev ev' : DowntimeEvent) : Prop :=
  StartTime ev = StartTime ev'
  /\ EndTime ev = EndTime ev'
  /\ IsOngoing ev = IsOngoing ev'
  /\ FailedHosts ev = FailedHosts ev'
  /\ Duration ev <= Duration ev'
  /\ (IsOngoing ev = false -> Duration ev = Duration ev').

(** ** Package storage: reading the logs back *)

(** What the file system and the JSON decoder hand to [ReadLogs].  The
    directory is the error of [filepath.Glob] or the files the pattern
    matches, in the order of the glob; a file is [None] when [os.Open]
    fails and otherwise the JSON values it holds, each one decoded to a
    [LogEntry] or, when [Decode] rejects it, [None].  (Text that is not
    JSON at all is outside this model.) *)
Definition LogFile : Type := option (list (option storage.LogEntry)).
Definition DataDir : Type := (string + list LogFile)%type.

(** The body of the loop over the values of one file. *)
Definition readValue (startTime endTime : option time.Time)
    (allEntries : list storage.LogEntry) (value : option storage.LogEntry)
  : list storage.LogEntry :=
  match value with
  | None => allEntries
  | Some entry =>
      if match startTime with
         | Some start => time.Before (storage.Timestamp entry) start
         | None => false
         end
      then allEntries
      else if match endTime with
              | Some end_ => time.After (storage.Timestamp entry) end_
              | None => false
              end
      then allEntries
      else allEntries ++ [entry]
  end.

(** The body of the loop over the files. *)
Definition readFile (startTime endTime : option time.Time)
    (allEntries : list storage.LogEntry) (file : LogFile)
  : list storage.LogEntry :=
  match file with
  | None => allEntries
  | Some values => fold_left (readValue startTime endTime) values allEntries
  end.

(** [ReadLogs]: the entries, or the error message. *)
Definition ReadLogs (dir : DataDir) (startTime endTime : option time.Time)
  : string + list storage.LogEntry :=
  match dir with
  | inl err => inl ("failed to list log files: " +:+ err)
  | inr files => inr (fold_left (readFile startTime endTime) files [])
  end.

(** The entries stored in the files of a directory, in order. *)
Definition storedEntries (files : list LogFile) : list storage.LogEntry :=
  files ≫= (fun file => match file with
                         | None => []
                         | Some values => omap id values
                         end).

(** [t] lies between the bounds that are given, ends included. *)
Definition inWindow (startTime endTime : option time.Time) (t : time.Time) : Prop :=
  match startTime with Some start => start <= t | None => True end
  /\ match endTime with Some end_ => t <= end_ | None => True end.

#[global] Instance inWindow_dec startTime endTime t :
  Decision (inWindow startTime endTime t).
Proof. unfold inWindow. destruct startTime, endTime; apply _. Defined.

(** ** Package api: the handlers *)

(** The answer of a handler: the status and the body, before its
    encoding ([http.Error] for an error, the JSON encoder otherwise).
    Headers are not modelled. *)
Inductive Response (A : Type) : Type :=
  | InternalServerError (message : string)
  | OK (body : A).

Arguments InternalServerError {A} message.
Arguments OK {A} body.

(** The bound a handler takes from a query parameter, whose value is
    [""] when the parameter is absent; [Parse] is
    [time.Parse(time.RFC3339, _)], [None] for an error. *)
Definition queryTime (Parse : string -> option time.Time) (value : string)
  : option time.Time :=
  if decide (value = "") then None else Parse value.

Definition handleLogs (Parse : string -> option time.Time) (dir : DataDir)
    (startStr endStr : string) : Response (list storage.LogEntry) :=
  let startTime := queryTime Parse startStr in
  let endTime := queryTime Parse endStr in
  match ReadLogs dir startTime endTime with
  | inl err => InternalServerError ("Failed to read logs: " +:+ err)
  | inr logs => OK logs
  end.

Definition handleStats (Parse : string -> option time.Time) (dir : DataDir)
    (now : time.Time) (startStr endStr : string) : Response Stats :=
  let startTime := queryTime Parse startStr in
  let endTime := queryTime Parse endStr in
  match ReadLogs dir startTime endTime with
  | inl err => InternalServerError ("Failed to read logs: " +:+ err)
  | inr logs => OK (calculateStats now logs)
  end.

(** ** Command monitrix: configuration from the environment *)

(** [strings.Split(s, sep)] for a separator [sep] of one byte: the pieces
    of [s] between the occurrences of [sep]. *)
Fixpoint Split (s : string) (sep : Ascii.ascii) : list string :=
  match s with
  | EmptyString => [EmptyString]
  | String c s' =>
      if Ascii.eqb c sep then EmptyString :: Split s' sep
      else match Split s' sep with
           | piece :: pieces => String c piece :: pieces
           | [] => [String c EmptyString]
           end
  end.

(** The number of bytes of [s] equal to [c]. *)
Fixpoint countByte (c : Ascii.ascii) (s : string) : nat :=
  match s with
  | EmptyString => 0
  | String c' s' => (if Ascii.eqb c' c then 1 else 0) + countByte c s'
  end.

Definition defaultHosts : list string :=
  ["1.1.1.1"; "8.8.8.8"; "google.com"; "cloudflare.com"; "github.com"].

Section Config.

(** The environment and the library functions the configuration goes
    through: [os.Getenv] (the empty string for a variable that is not
    set), [strings.TrimSpace], and [strconv.Atoi] ([None] for an
    error). *)
Variable Getenv : string -> string.
Variable TrimSpace : string -> string.
Variable Atoi : string -> option Z.

Definition getEnv (key defaultValue : string) : string :=
  let value := Getenv key in
  if decide (value <> "") then value else defaultValue.

Definition getHosts : list string :=
  let hostsEnv := Getenv "MONITOR_HOSTS" in
  if decide (hostsEnv <> "") then
    let hosts := Split hostsEnv ","%char in
    map TrimSpace hosts
  else defaultHosts.

Definition getPingInterval : time.Duration :=
  let intervalEnv := Getenv "MONITOR_INTERVAL" in
  let default := int64_wrap (30 * time.Second) in
  if decide (intervalEnv <> "") then
    match Atoi intervalEnv with
    | Some seconds =>
        if 0 <? seconds then int64_wrap (seconds * time.Second) else default
    | None => default
    end
  else default.

End Config.

(** ** Package monitor: the probe *)

(** What the network and the clock answer during one call of [Ping]:
    the time at its start; the addresses and the error of [LookupHost]
    ([None] for no error); for each port the error of [DialTimeout]
    ([None] when the connection is made); and the milliseconds elapsed
    since the start, [time.Since(start).Milliseconds()], read after the
    lookup, after the dial of each port, and after the loop over the
    ports. *)
Record Observation : Type := {
  obsStart : time.Time;
  obsLookup : list string * option string;
  obsLookupMs : Z;
  obsDial : string -> option string;
  obsDialMs : string -> Z;
  obsFinalMs : Z
}.

Definition maxAcceptableLatency : Z := 10000.

(** The loop of [Ping] over the ports, from the port list that is left
    and the last error so far.  (With no port at all [lastErr] would be
    nil at the end; the list of ports in [Ping] has two.) *)
Fixpoint dialPorts (obs : Observation) (result : monitor.PingResult)
    (ports : list string) (lastErr : option string) : monitor.PingResult :=
  match ports with
  | port :: ports' =>
      match obsDial obs port with
      | None =>
          let latency := obsDialMs obs port in
          if maxAcceptableLatency <? latency then
            {| monitor.Host := monitor.Host result;
               monitor.Success := false;
               monitor.Latency := latency;
               monitor.Error :=
                 "Connection too slow: " +:+ pretty latency
                 +:+ "ms (max acceptable: " +:+ pretty maxAcceptableLatency +:+ "ms)";
               monitor.Timestamp := monitor.Timestamp result |}
          else
            {| monitor.Host := monitor.Host result;
               monitor.Success := true;
               monitor.Latency := latency;
               monitor.Error := monitor.Error result;
               monitor.Timestamp := monitor.Timestamp result |}
      | Some err => dialPorts obs result ports' (Some err)
      end
  | [] =>
      {| monitor.Host := monitor.Host result;
         monitor.Success := false;
         monitor.Latency := obsFinalMs obs;
         monitor.Error := default "" lastErr;
         monitor.Timestamp := monitor.Timestamp result |}
  end.

(** [Ping], newer version: a lookup of the host, then a connection to
    port 443 and, if that fails, to port 80. *)
Definition Ping (host : string) (obs : Observation) : monitor.PingResult :=
  let result :=
    {| monitor.Host := host; monitor.Success := false; monitor.Latency := 0;
       monitor.Error := ""; monitor.Timestamp := obsStart obs |} in
  let '(addrs, dnsErr) := obsLookup obs in
  let dnsLatency := obsLookupMs obs in
  match dnsErr with
  | Some err =>
      {| monitor.Host := monitor.Host result;
         monitor.Success := false;
         monitor.Latency := dnsLatency;
         monitor.Error := "DNS lookup failed: " +:+ err;
         monitor.Timestamp := monitor.Timestamp result |}
  | None =>
      if (length addrs =? 0)%nat then
        {| monitor.Host := monitor.Host result;
           monitor.Success := false;
           monitor.Latency := dnsLatency;
           monitor.Error := "No IP addresses found for host";
           monitor.Timestamp := monitor.Timestamp result |}
      else dialPorts obs result ["443"; "80"] None
  end.

(** Two observations that differ at most in what happens at port 80 and
    after it. *)
Definition sameUntilPort80 (obs obs' : Observation) : Prop :=
  obsStart obs = obsStart obs'
  /\ obsLookup obs = obsLookup obs'
  /\ obsLookupMs obs = obsLookupMs obs'
  /\ obsDial obs "443" = obsDial obs' "443"
  /\ obsDialMs obs "443" = obsDialMs obs' "443".

(** The error text [PingAll] prints after a result. *)
Definition errorMsgOf (result : monitor.PingResult) : string :=
  if monitor.Success result then ""
  else if decide (monitor.Error result <> "") then
    let errorMsg := " [" +:+ monitor.Error result +:+ "]" in
    if (60 <? String.length errorMsg)%nat
    then String.substring 0 57 errorMsg +:+ "...]"
    else errorMsg
  else "".

(** What [PingAll] hands to [Printf] for one result; the layout of the
    line is not modelled. *)
Record Line : Type := {
  lineStatus : string;
  lineHost : string;
  lineLatency : Z;
  lineErrorMsg : string
}.

(** The variables of the loop of [PingAll], and the lines printed. *)
Record PingAllState : Type := {
  paResults : list monitor.PingResult;
  paSuccessCount : Z;
  paLines : list Line
}.

(** One iteration: the [n]-th call of [Ping] of this round sees
    [obs n]. *)
Definition pingNext (obs : nat -> Observation) (st : PingAllState) (host : string)
  : PingAllState :=
  let result := Ping host (obs (length (paResults st))) in
  {| paResults := paResults st ++ [result];
     paSuccessCount :=
       if monitor.Success result then int_wrap (paSuccessCount st + 1)
       else paSuccessCount st;
     paLines :=
       paLines st ++
       [ {| lineStatus := if monitor.Success result then "✓ OK" else "✗ FAIL";
            lineHost := monitor.Host result;
            lineLatency := monitor.Latency result;
            lineErrorMsg := errorMsgOf result |} ] |}.

(** [PingAll]: the results, the lines printed, and whether the banner
    "INTERNET: OFFLINE - All hosts unreachable" is printed. *)
Definition PingAll (hosts : list string) (obs : nat -> Observation)
  : list monitor.PingResult * list Line * bool :=
  let st := fold_left (pingNext obs) hosts
              {| paResults := []; paSuccessCount := 0; paLines := [] |} in
  (paResults st, paLines st, paSuccessCount st =? 0).

(** [Save] writes one entry for the results of a round, stamped with the
    time of the call. *)
Definition savedEntry (now : time.Time) (results : list monitor.PingResult)
  : storage.LogEntry :=
  {| storage.Timestamp := now; storage.Results := results |}.

(** The number of successful results. *)
Definition countSuccess (results : list monitor.PingResult) : Z :=
  Z.of_nat (length (List.filter monitor.Success results)).

(** ** Package api, the version with statistics for each host

    [calculateStats] of src/unnamed/part_001.  It keeps, in maps from the
    host name, the counters of each host, its last state and the start of
    its downtime, and lists the downtimes of each host that have
    ended. *)

Module perhost.

Record DowntimeEvent : Type := {
  Host : string;
  StartTime : time.Time;
  EndTime : time.Time;
  Duration : Z
}.

Record HostStat : Type := {
  TotalPings : Z;
  SuccessCount : Z;
  FailureCount : Z;
  SuccessRate : Q;
  AvgLatency : Q
}.

Record Stats : Type := {
  TotalChecks : Z;
  DowntimeEvents : list DowntimeEvent;
  HostStats : gmap string HostStat
}.

(** The zero value, which a Go map gives for a key it does not hold. *)
Definition zeroHostStat : HostStat :=
  {| TotalPings := 0; SuccessCount := 0; FailureCount := 0;
     SuccessRate := 0; AvgLatency := 0 |}.

(** The local variables of [calculateStats]. *)
Record LoopState : Type := {
  hostStats : gmap string HostStat;
  downtimeEvents : list DowntimeEvent;
  lastState : gmap string bool;
  downtimeStart : gmap string time.Time
}.

Definition initialState : LoopState :=
  {| hostStats := ∅; downtimeEvents := []; lastState := ∅; downtimeStart := ∅ |}.

(** [stat.SuccessRate], set when [stat.TotalPings > 0]. *)
Definition successRate (stat : HostStat) (successCount totalPings : Z) : Q :=
  if 0 <? totalPings
  then float64.mul (float64.div (float64.of_int successCount)
                                (float64.of_int totalPings)) 100
  else SuccessRate stat.

(** The body of the inner loop, for one result.  (In the average latency
    the product and the sum are rounded one after the other, as where Go
    does not fuse them into one operation.) *)
Definition processResult (st : LoopState) (result : monitor.PingResult) : LoopState :=
  let host := monitor.Host result in
  let stat := default zeroHostStat (hostStats st !! host) in
  let totalPings := int_wrap (TotalPings stat + 1) in
  if monitor.Success result then
    let successCount := int_wrap (SuccessCount stat + 1) in
    let avgLatency :=
      float64.div
        (float64.add
           (float64.mul (AvgLatency stat) (float64.of_int (int_wrap (successCount - 1))))
           (float64.of_int (monitor.Latency result)))
        (float64.of_int successCount) in
    let events :=
      match lastState st !! host with
      | Some false =>
          let start := default 0 (downtimeStart st !! host) in
          downtimeEvents st ++
          [ {| Host := host;
               StartTime := start;
               EndTime := monitor.Timestamp result;
               Duration :=
                 durationSeconds (time.Sub (monitor.Timestamp result) start) |} ]
      | _ => downtimeEvents st
      end in
    {| hostStats :=
         <[host := {| TotalPings := totalPings;
                      SuccessCount := successCount;
                      FailureCount := FailureCount stat;
                      SuccessRate := successRate stat successCount totalPings;
                      AvgLatency := avgLatency |}]> (hostStats st);
       downtimeEvents := events;
       lastState := <[host := true]> (lastState st);
       downtimeStart := downtimeStart st |}
  else
    let failureCount := int_wrap (FailureCount stat + 1) in
    {| hostStats :=
         <[host := {| TotalPings := totalPings;
                      SuccessCount := SuccessCount stat;
                      FailureCount := failureCount;
                      SuccessRate := successRate stat (SuccessCount stat) totalPings;
                      AvgLatency := AvgLatency stat |}]> (hostStats st);
       downtimeEvents := downtimeEvents st;
       lastState := <[host := false]> (lastState st);
       downtimeStart :=
         match lastState st !! host with
         | Some false => downtimeStart st
         | _ => <[host := monitor.Timestamp result]> (downtimeStart st)
         end |}.

(** The body of the outer loop, for one entry. *)
Definition processEntry (st : LoopState) (entry : storage.LogEntry) : LoopState :=
  fold_left processResult (storage.Results entry) st.

Definition calculateStats (logs : list storage.LogEntry) : Stats :=
  let st := fold_left processEntry logs initialState in
  {| TotalChecks := Z.of_nat (length logs);
     DowntimeEvents := downtimeEvents st;
     HostStats := hostStats st |}.

(** The results of all the entries, in order, and those of one host. *)
Definition allResults (logs : list storage.LogEntry) : list monitor.PingResult :=
  logs ≫= storage.Results.

Definition resultsOf (host : string) (results : list monitor.PingResult)
  : list monitor.PingResult :=
  filter (fun r => monitor.Host r = host) results.

(** The logs with the results of one host only. *)
Definition restrict (host : string) (logs : list storage.LogEntry)
  : list storage.LogEntry :=
  map (fun e => {| storage.Timestamp := storage.Timestamp e;
                   storage.Results := resultsOf host (storage.Results e) |}) logs.

(** The counters of [stat] are those of the results [results] of its
    host. *)
Definition countsResults (stat : HostStat) (results : list monitor.PingResult) : Prop :=
  results <> []
  /\ TotalPings stat = Z.of_nat (length results)
  /\ SuccessCount stat = countSuccess results
  /\ FailureCount stat = Z.of_nat (length results) - countSuccess results
  /\ SuccessRate stat =
       float64.mul (float64.div (float64.of_int (countSuccess results))
                                (float64.of_int (Z.of_nat (length results)))) 100.

(** The counters of every host are those of its results so far. *)
Definition counted (st : LoopState) (results : list monitor.PingResult) : Prop :=
  forall host,
    match hostStats st !! host with
    | None => resultsOf host results = []
    | Some stat => countsResults stat (resultsOf host results)
    end.

(** What the maps hold about one host. *)
Definition hostView (host : string) (st : LoopState)
  : option HostStat * option bool * option time.Time * list DowntimeEvent :=
  (hostStats st !! host, lastState st !! host, downtimeStart st !! host,
   filter (fun ev => Host ev = host) (downtimeEvents st)).

(** Two results that differ at most in their error text. *)
Definition sameButError (r1 r2 : monitor.PingResult) : Prop :=
  monitor.Host r1 = monitor.Host r2
  /\ monitor.Success r1 = monitor.Success r2
  /\ monitor.Latency r1 = monitor.Latency r2
  /\ monitor.Timestamp r1 = monitor.Timestamp r2.

(** The event [ev] is a downtime of its host that ended: it runs from a
    failing result of the host to a later successful one. *)
Definition isRecovery (results : list monitor.PingResult) (ev : DowntimeEvent) : Prop :=
  exists (i j : nat) (failing recovered : monitor.PingResult),
    results !! i = Some failing /\ results !! j = Some recovered /\ (i < j)%nat
    /\ monitor.Host failing = Host ev /\ monitor.Success failing = false
    /\ monitor.Timestamp failing = StartTime ev
    /\ monitor.Host recovered = Host ev /\ monitor.Success recovered = true
    /\ monitor.Timestamp recovered = EndTime ev
    /\ Duration ev = durationSeconds (time.Sub (EndTime ev) (StartTime ev)).

(** Two entries whose results differ at most in their error text; the
    timestamps of the entries may differ. *)
Definition sameResults (e1 e2 : storage.LogEntry) : Prop :=
  Forall2 sameButError (storage.Results e1) (storage.Results e2).

(** What the loop keeps true of the downtimes: the events are recoveries
    among the results so far, and a host that is down has failed at the
    time its downtime is recorded to have started. *)
Definition recoveries (st : LoopState) (results : list monitor.PingResult) : Prop :=
  Forall (isRecovery results) (downtimeEvents st)
  /\ forall host,
       lastState st !! host = Some false ->
       exists (i : nat) (failing : monitor.PingResult),
         results !! i = Some failing /\ monitor.Host failing = host
         /\ monitor.Success failing = false
         /\ downtimeStart st !! host = Some (monitor.Timestamp failing).

End perhost.

(** * Properties *)

Ltac unfold_step :=
  unfold processEntry, internetOnline, failedHostsOf, inDowntime in *;
  repeat match goal with
  | |- context [scanResults ?rs] => destruct (scanResults rs) as [[] ?]
  | H : context [scanResults ?rs] |- _ => destruct (scanResults rs) as [[] ?]
  end;
  simpl in *; try discriminate.

Ltac case_state st :=
  destruct (statusInitialized st), (lastStatus st); simpl in *; try discriminate.

(** ** The in-place reversal *)

Lemma swapAt_length {A : Type} (l : list A) (i j : nat) :
  length (swapAt l i j) = length l.
Proof.
  unfold swapAt. destruct (l !! i), (l !! j); trivial.
  now rewrite !length_insert.
Qed.

Lemma swapAt_lookup {A : Type} (l : list A) (i j k : nat) :
  (i < length l)%nat -> (j < length l)%nat ->
  swapAt l i j !! k =
    if decide (k = j) then l !! i else if decide (k = i) then l !! j else l !! k.
Proof.
  intros Hi Hj. unfold swapAt.
  destruct (lookup_lt_is_Some_2 l i Hi) as [x Hx].
  destruct (lookup_lt_is_Some_2 l j Hj) as [y Hy].
  rewrite Hx, Hy.
  destruct (decide (k = j)) as [->|Hkj].
  - apply list_lookup_insert_eq. now rewrite length_insert.
  - rewrite list_lookup_insert_ne by congruence.
    destruct (decide (k = i)) as [->|Hki].
    + now apply list_lookup_insert_eq.
    + now rewrite list_lookup_insert_ne by congruence.
Qed.

(** The state of the slice after the first [k] iterations of the
    reversal loop: the outer [k] positions on both sides are mirrored,
    the middle is untouched. *)
Lemma reverseLoop_lookup {A : Type} (l : list A) (k : nat) :
  (2 * k <= length l)%nat ->
  let lk := fold_left (fun l i => swapAt l i (length l - 1 - i)) (seq 0 k) l in
  length lk = length l /\
  forall j : nat,
    lk !! j =
      if decide (j < k \/ length l - k <= j < length l)%nat
      then l !! (length l - 1 - j)%nat else l !! j.
Proof.
  induction k as [|k IH]; intros Hk; cbv zeta.
  - simpl. split; [reflexivity|]. intros j.
    destruct (decide _) as [[H|H]|H]; [lia|lia|reflexivity].
  - rewrite seq_S, fold_left_app. simpl.
    cbv zeta in IH. destruct IH as [Hlen Hlk]; [lia|].
    set (lk := fold_left _ (seq 0 k) l) in *.
    split; [now rewrite swapAt_length|].
    intros j. rewrite swapAt_lookup by lia. rewrite Hlen, !Hlk.
    repeat destruct (decide _); try lia; try reflexivity; f_equal; lia.
Qed.

Lemma reverseInPlace_reverse {A : Type} (l : list A) :
  reverseInPlace l = reverse l.
Proof.
  unfold reverseInPlace.
  assert (Hk : (2 * (length l `div` 2) <= length l)%nat).
  { pose proof (Nat.div_mod_eq (length l) 2). lia. }
  destruct (reverseLoop_lookup l _ Hk) as [Hlen Hlk].
  apply list_eq. intros j. rewrite Hlk.
  destruct (decide (j < length l)%nat) as [Hj|Hj].
  - rewrite reverse_lookup by lia.
    pose proof (Nat.div_mod_eq (length l) 2) as Hd.
    pose proof (Nat.mod_upper_bound (length l) 2) as Hm.
    destruct (decide _); f_equal; lia.
  - rewrite (lookup_ge_None_2 (reverse l)) by (rewrite length_reverse; lia).
    destruct (decide _); [lia|]. apply lookup_ge_None_2; lia.
Qed.

(** Every index the reversal loop touches is inside the slice, so the
    bounds check of Go never fires. *)
Lemma reverseInPlace_in_range {A : Type} (l : list A) (i : nat) :
  i ∈ seq 0 (length l `div` 2) ->
  (i < length l)%nat /\ (length l - 1 - i < length l)%nat.
Proof.
  rewrite elem_of_seq. pose proof (Nat.div_mod_eq (length l) 2). lia.
Qed.

(** ** Arithmetic of float64 *)

(** *** Rounding to binary64 is monotone *)

Lemma roundHalfEven_bounds (x : Q) :
  Qfloor x <= float64.roundHalfEven x <= Qfloor x + 1.
Proof.
  unfold float64.roundHalfEven. destruct (_ ?= _)%Q; [destruct (Z.even _)|..]; lia.
Qed.

Lemma roundHalfEven_mono (x y : Q) :
  (x <= y)%Q -> float64.roundHalfEven x <= float64.roundHalfEven y.
Proof.
  intros Hxy. pose proof (Qfloor_resp_le x y Hxy) as Hf.
  destruct (Z.eq_dec (Qfloor x) (Qfloor y)) as [Heq|Hne].
  - unfold float64.roundHalfEven. rewrite <- Heq.
    destruct (Qcompare_spec (x - inject_Z (Qfloor x)) (1 # 2)) as [Hx|Hx|Hx];
    destruct (Qcompare_spec (y - inject_Z (Qfloor x)) (1 # 2)) as [Hy|Hy|Hy];
    try lra; try destruct (Z.even _); lia.
  - pose proof (roundHalfEven_bounds x). pose proof (roundHalfEven_bounds y). lia.
Qed.

Lemma roundHalfEven_Z (z : Z) : float64.roundHalfEven (inject_Z z) = z.
Proof.
  unfold float64.roundHalfEven. rewrite Qfloor_Z.
  destruct (Qcompare_spec (inject_Z z - inject_Z z) (1 # 2)) as [H|H|H]; try lra.
  reflexivity.
Qed.

Lemma pow2_pos (e : Z) : (0 < 2 ^ e)%Q.
Proof. apply Qpower_0_lt. reflexivity. Qed.

Lemma pow2_add (a b : Z) : (2 ^ (a + b) == 2 ^ a * 2 ^ b)%Q.
Proof. apply Qpower_plus. discriminate. Qed.

Lemma pow2_le (a b : Z) : a <= b -> (2 ^ a <= 2 ^ b)%Q.
Proof. intros H. apply Qpower_le_compat_l; [exact H|discriminate]. Qed.

Lemma pow2_Z (a : Z) : 0 <= a -> (2 ^ a == inject_Z (2 ^ a))%Q.
Proof. intros Ha. now rewrite (Zpower_Qpower 2 a Ha). Qed.

(** [2 ^ (a - b)] against the fraction [n / d], by cross-multiplication. *)
Lemma pow2_sub_le (a b n : Z) (d : positive) :
  0 <= a -> 0 <= b -> 2 ^ a * Zpos d <= n * 2 ^ b -> (2 ^ (a - b) <= n # d)%Q.
Proof.
  intros Ha Hb H. unfold Z.sub. rewrite pow2_add, Qpower_opp, !pow2_Z by lia.
  assert (Hb' : 0 < 2 ^ b) by now apply Z.pow_pos_nonneg.
  apply Qle_shift_div_r; [change 0%Q with (inject_Z 0); rewrite <- Zlt_Qlt; lia|].
  unfold Qle, Qmult. simpl. lia.
Qed.

Lemma pow2_sub_gt (a b n : Z) (d : positive) :
  0 <= a -> 0 <= b -> n * 2 ^ b < 2 ^ a * Zpos d -> (n # d < 2 ^ (a - b))%Q.
Proof.
  intros Ha Hb H. unfold Z.sub. rewrite pow2_add, Qpower_opp, !pow2_Z by lia.
  assert (Hb' : 0 < 2 ^ b) by now apply Z.pow_pos_nonneg.
  apply Qlt_shift_div_l; [change 0%Q with (inject_Z 0); rewrite <- Zlt_Qlt; lia|].
  unfold Qlt, Qmult. simpl. lia.
Qed.

Lemma ilog2_spec (x : Q) :
  (0 < x)%Q -> (2 ^ float64.ilog2 x <= x < 2 ^ (float64.ilog2 x + 1))%Q.
Proof.
  destruct x as [n d]. intros Hx.
  assert (Hn : 0 < n) by (unfold Qlt in Hx; simpl in Hx; lia).
  unfold float64.ilog2. simpl Qnum. simpl Qden.
  pose proof (Z.log2_spec n Hn) as [Hn1 Hn2].
  pose proof (Z.log2_spec (Zpos d) eq_refl) as [Hd1 Hd2].
  pose proof (Z.log2_nonneg n) as Ha. pose proof (Z.log2_nonneg (Zpos d)) as Hb.
  set (a := Z.log2 n) in *. set (b := Z.log2 (Zpos d)) in *.
  assert (Hpa : 0 < 2 ^ a) by now apply Z.pow_pos_nonneg.
  assert (Hpb : 0 < 2 ^ b) by now apply Z.pow_pos_nonneg.
  assert (Hupper : (n # d < 2 ^ (a - b + 1))%Q).
  { replace (a - b + 1) with (Z.succ a - b) by lia. apply pow2_sub_gt; nia. }
  assert (Hlower : (2 ^ (a - b - 1) <= n # d)%Q).
  { replace (a - b - 1) with (a - Z.succ b) by lia. apply pow2_sub_le; nia. }
  destruct (Qle_bool (2 ^ (a - b)) (n # d)) eqn:Htest.
  - apply Qle_bool_iff in Htest. split; assumption.
  - split; [exact Hlower|].
    replace (a - b - 1 + 1) with (a - b) by lia.
    apply Qnot_le_lt. intros H. apply Qle_bool_iff in H. congruence.
Qed.

Lemma ilog2_mono (x y : Q) : (0 < x)%Q -> (x <= y)%Q -> float64.ilog2 x <= float64.ilog2 y.
Proof.
  intros Hx Hxy.
  destruct (ilog2_spec x Hx) as [Hx1 _].
  destruct (ilog2_spec y) as [_ Hy2]; [lra|].
  destruct (Z_lt_le_dec (float64.ilog2 y) (float64.ilog2 x)) as [Hlt|Hle]; [|exact Hle].
  pose proof (pow2_le (float64.ilog2 y + 1) (float64.ilog2 x) ltac:(lia)) as Hp. lra.
Qed.

Lemma ulpExponent_upper (x : Q) : (0 < x)%Q -> (x < 2 ^ (float64.ulpExponent x + 53))%Q.
Proof.
  intros Hx. destruct (ilog2_spec x Hx) as [_ H].
  eapply Qlt_le_trans; [exact H|]. apply pow2_le. unfold float64.ulpExponent. lia.
Qed.

Lemma ulpExponent_lower (x : Q) :
  (0 < x)%Q -> -1074 < float64.ulpExponent x -> (2 ^ (float64.ulpExponent x + 52) <= x)%Q.
Proof.
  intros Hx He. destruct (ilog2_spec x Hx) as [H _].
  eapply Qle_trans; [|exact H]. apply pow2_le. unfold float64.ulpExponent in *. lia.
Qed.

Lemma ulpExponent_mono (x y : Q) :
  (0 < x)%Q -> (x <= y)%Q -> float64.ulpExponent x <= float64.ulpExponent y.
Proof.
  intros Hx Hxy. pose proof (ilog2_mono x y Hx Hxy). unfold float64.ulpExponent. lia.
Qed.

Lemma roundMagnitude_nonneg (x : Q) : (0 < x)%Q -> (0 <= float64.roundMagnitude x)%Q.
Proof.
  intros Hx. unfold float64.roundMagnitude.
  pose proof (pow2_pos (float64.ulpExponent x)) as He.
  apply Qmult_le_0_compat; [|lra].
  change 0%Q with (inject_Z 0). rewrite <- Zle_Qle.
  rewrite <- (roundHalfEven_Z 0). apply roundHalfEven_mono.
  apply Qle_shift_div_l; [exact He|]. change (inject_Z 0) with 0%Q. lra.
Qed.

Lemma roundMagnitude_mono (x y : Q) :
  (0 < x)%Q -> (x <= y)%Q -> (float64.roundMagnitude x <= float64.roundMagnitude y)%Q.
Proof.
  intros Hx Hxy. assert (Hy : (0 < y)%Q) by lra.
  pose proof (ulpExponent_mono x y Hx Hxy) as He.
  unfold float64.roundMagnitude.
  pose proof (pow2_pos (float64.ulpExponent x)) as Hpx.
  pose proof (pow2_pos (float64.ulpExponent y)) as Hpy.
  destruct (Z.eq_dec (float64.ulpExponent x) (float64.ulpExponent y)) as [Heq|Hne].
  - rewrite <- Heq in *. apply Qmult_le_compat_r; [|lra].
    rewrite <- Zle_Qle. apply roundHalfEven_mono.
    apply Qmult_le_compat_r; [exact Hxy|]. apply Qlt_le_weak, Qinv_lt_0_compat, Hpx.
  - assert (Hlt : float64.ulpExponent x + 1 <= float64.ulpExponent y) by lia.
    unfold float64.ulpExponent in Hlt at 1.
    pose proof (ulpExponent_upper x Hx) as Hux.
    pose proof (ulpExponent_lower y Hy ltac:(lia)) as Hly.
    apply Qle_trans with (2 ^ 53 * 2 ^ float64.ulpExponent x)%Q.
    + apply Qmult_le_compat_r; [|lra].
      rewrite (pow2_Z 53) by lia. rewrite <- Zle_Qle.
      rewrite <- (roundHalfEven_Z (2 ^ 53)). apply roundHalfEven_mono.
      apply Qle_shift_div_r; [exact Hpx|].
      rewrite <- pow2_Z by lia. rewrite <- pow2_add, Z.add_comm. lra.
    + apply Qle_trans with (2 ^ 52 * 2 ^ float64.ulpExponent y)%Q.
      * rewrite <- !pow2_add. apply pow2_le. lia.
      * apply Qmult_le_compat_r; [|lra].
        rewrite (pow2_Z 52) by lia. rewrite <- Zle_Qle.
        rewrite <- (roundHalfEven_Z (2 ^ 52)). apply roundHalfEven_mono.
        apply Qle_shift_div_l; [exact Hpy|].
        rewrite <- pow2_Z by lia. rewrite <- pow2_add, Z.add_comm. exact Hly.
Qed.

Lemma round_mono (x y : Q) : (x <= y)%Q -> (float64.round x <= float64.round y)%Q.
Proof.
  intros Hxy. unfold float64.round. rewrite !Qred_correct.
  destruct (Qcompare_spec x 0) as [Hx|Hx|Hx];
  destruct (Qcompare_spec y 0) as [Hy|Hy|Hy]; try lra.
  - apply roundMagnitude_nonneg. exact Hy.
  - pose proof (roundMagnitude_nonneg (- x) ltac:(lra)). lra.
  - pose proof (roundMagnitude_mono (- y) (- x) ltac:(lra) ltac:(lra)). lra.
  - pose proof (roundMagnitude_nonneg (- x) ltac:(lra)).
    pose proof (roundMagnitude_nonneg y Hy). lra.
  - now apply roundMagnitude_mono.
Qed.

Lemma round_fixes : (float64.round 0 == 0 /\ float64.round 1 == 1 /\ float64.round 100 == 100)%Q.
Proof. repeat split; vm_compute; reflexivity. Qed.

(** *** Integers below [2^53] are binary64 numbers *)

Lemma roundHalfEven_eq (x : Q) (k : Z) :
  (x == inject_Z k)%Q -> float64.roundHalfEven x = k.
Proof.
  intros Hx.
  assert (Hle : (x <= inject_Z k)%Q) by (rewrite Hx; apply Qle_refl).
  assert (Hge : (inject_Z k <= x)%Q) by (rewrite Hx; apply Qle_refl).
  apply roundHalfEven_mono in Hle, Hge.
  rewrite roundHalfEven_Z in Hle, Hge. lia.
Qed.

Lemma roundMagnitude_int (z : Z) :
  0 < z < 2 ^ 53 -> (float64.roundMagnitude (inject_Z z) == inject_Z z)%Q.
Proof.
  intros Hz.
  assert (Hpos : (0 < inject_Z z)%Q).
  { change 0%Q with (inject_Z 0). rewrite <- Zlt_Qlt. lia. }
  assert (He : float64.ulpExponent (inject_Z z) <= 0).
  { destruct (ilog2_spec _ Hpos) as [Hlow _].
    assert (Hlt : (2 ^ float64.ilog2 (inject_Z z) < 2 ^ 53)%Q).
    { eapply Qle_lt_trans; [exact Hlow|].
      rewrite (pow2_Z 53) by lia. rewrite <- Zlt_Qlt. lia. }
    apply Qpower_lt_compat_l_inv in Hlt; [|reflexivity].
    unfold float64.ulpExponent. lia. }
  unfold float64.roundMagnitude.
  set (e := float64.ulpExponent (inject_Z z)) in *.
  assert (Hinv : (2 ^ e == / inject_Z (2 ^ (- e)))%Q).
  { replace e with (- - e) at 1 by lia.
    rewrite Qpower_opp, pow2_Z by lia. reflexivity. }
  assert (Hp : 0 < 2 ^ (- e)) by (apply Z.pow_pos_nonneg; lia).
  assert (Hp' : ~ (inject_Z (2 ^ (- e)) == 0)%Q).
  { change 0%Q with (inject_Z 0). rewrite inject_Z_injective. lia. }
  rewrite (roundHalfEven_eq _ (z * 2 ^ (- e))).
  - rewrite Hinv, inject_Z_mult. field. exact Hp'.
  - rewrite Hinv, inject_Z_mult. field. exact Hp'.
Qed.

Lemma round_int (z : Z) :
  Z.abs z < 2 ^ 53 -> (float64.round (inject_Z z) == inject_Z z)%Q.
Proof.
  intros Hz. unfold float64.round. rewrite Qred_correct.
  destruct (Qcompare_spec (inject_Z z) 0) as [H|H|H].
  - symmetry. exact H.
  - change 0%Q with (inject_Z 0) in H. rewrite <- Zlt_Qlt in H.
    change (- inject_Z z)%Q with (inject_Z (- z)).
    rewrite roundMagnitude_int by lia. rewrite inject_Z_opp. ring.
  - change 0%Q with (inject_Z 0) in H. rewrite <- Zlt_Qlt in H.
    apply roundMagnitude_int. lia.
Qed.

Lemma round_between (a b : Z) (x : Q) :
  Z.abs a < 2 ^ 53 -> Z.abs b < 2 ^ 53 ->
  (inject_Z a <= x <= inject_Z b)%Q ->
  (inject_Z a <= float64.round x <= inject_Z b)%Q.
Proof.
  intros Ha Hb [Hax Hxb].
  pose proof (round_mono _ _ Hax) as H1. pose proof (round_mono _ _ Hxb) as H2.
  rewrite round_int in H1, H2 by assumption. split; assumption.
Qed.

(** *** Whole seconds of a duration *)

Lemma to_int64_between (a b : Z) (x : Q) :
  (inject_Z a <= x <= inject_Z b)%Q -> a <= float64.to_int64 x <= b.
Proof.
  destruct x as [n d]. unfold Qle, float64.to_int64. simpl. intros [Ha Hb].
  pose proof (Z.quot_rem' n (Zpos d)) as Hqr.
  destruct (Z_le_gt_dec 0 n) as [Hn|Hn].
  - pose proof (Z.rem_bound_pos n (Zpos d) Hn eq_refl). nia.
  - pose proof (Z.rem_bound_pos_neg n (Zpos d) eq_refl ltac:(lia)). nia.
Qed.

Lemma Seconds_between (d : time.Duration) :
  MinInt64 <= d <= MaxInt64 ->
  (inject_Z (Z.quot d time.Second + (if 0 <=? d then 0 else -1))
   <= time.Seconds d
   <= inject_Z (Z.quot d time.Second + (if 0 <=? d then 1 else 0)))%Q.
Proof.
  unfold MinInt64, MaxInt64, time.Seconds, time.Second, float64.add,
         float64.div, float64.of_int.
  intros Hd.
  pose proof (Z.quot_rem' d 1000000000) as Hqr.
  set (sec := Z.quot d 1000000000) in *. set (nsec := Z.rem d 1000000000) in *.
  assert (Hsec : (float64.round (inject_Z sec) == inject_Z sec)%Q).
  { apply round_int. destruct (Z.leb_spec 0 d).
    - pose proof (Z.rem_bound_pos d 1000000000 ltac:(lia) eq_refl). fold nsec in H0. lia.
    - pose proof (Z.rem_bound_pos_neg d 1000000000 eq_refl ltac:(lia)). fold nsec in H0. lia. }
  assert (Hnsec : (float64.round (inject_Z nsec) == inject_Z nsec)%Q).
  { apply round_int. destruct (Z.leb_spec 0 d).
    - pose proof (Z.rem_bound_pos d 1000000000 ltac:(lia) eq_refl). fold nsec in H0. lia.
    - pose proof (Z.rem_bound_pos_neg d 1000000000 eq_refl ltac:(lia)). fold nsec in H0. lia. }
  destruct (Z.leb_spec 0 d) as [Hpos|Hneg].
  - pose proof (Z.rem_bound_pos d 1000000000 Hpos eq_refl) as Hr. fold nsec in Hr.
    assert (Hfrac : (inject_Z 0 <= float64.round (float64.round (inject_Z nsec) / 1000000000)
                     <= inject_Z 1)%Q).
    { apply round_between; [reflexivity..|]. rewrite Hnsec.
      assert (inject_Z 0 <= inject_Z nsec <= inject_Z 1000000000)%Q
        by (rewrite <- !Zle_Qle; lia).
      change (inject_Z 0) with 0%Q in *. change (inject_Z 1) with 1%Q.
      change (inject_Z 1000000000) with 1000000000%Q in *.
      split; [apply Qle_shift_div_l|apply Qle_shift_div_r]; lra. }
    apply round_between; [lia..|]. rewrite Hsec, !inject_Z_plus.
    change (inject_Z 0) with 0%Q in *. change (inject_Z 1) with 1%Q in *. lra.
  - pose proof (Z.rem_bound_pos_neg d 1000000000 eq_refl ltac:(lia)) as Hr.
    fold nsec in Hr.
    assert (Hfrac : (inject_Z (-1) <= float64.round (float64.round (inject_Z nsec) / 1000000000)
                     <= inject_Z 0)%Q).
    { apply round_between; [reflexivity..|]. rewrite Hnsec.
      assert (inject_Z (-1000000000) <= inject_Z nsec <= inject_Z 0)%Q
        by (rewrite <- !Zle_Qle; lia).
      change (inject_Z 0) with 0%Q in *. change (inject_Z (-1)) with (-1)%Q.
      change (inject_Z (-1000000000)) with (-1000000000)%Q in *.
      split; [apply Qle_shift_div_l|apply Qle_shift_div_r]; lra. }
    apply round_between; [lia..|]. rewrite Hsec, !inject_Z_plus.
    change (inject_Z 0) with 0%Q in *. change (inject_Z (-1)) with (-1)%Q in *. lra.
Qed.

(** [int64(d.Seconds())] is the number of whole seconds of [d], or one
    more in magnitude when the rounding of the sum in [Seconds] reaches
    the next integer. *)
Lemma durationSeconds_whole_seconds (d : time.Duration) :
  MinInt64 <= d <= MaxInt64 ->
  Z.quot d time.Second + (if 0 <=? d then 0 else -1)
  <= durationSeconds d
  <= Z.quot d time.Second + (if 0 <=? d then 1 else 0).
Proof.
  intros Hd. apply to_int64_between. now apply Seconds_between.
Qed.

Lemma Sub_exact (t u : time.Time) :
  MinInt64 <= t - u <= MaxInt64 -> time.Sub t u = t - u.
Proof.
  unfold time.Sub, time.minDuration, time.maxDuration. intros H.
  destruct (Z.ltb_spec (t - u) MinInt64); [lia|].
  destruct (Z.ltb_spec MaxInt64 (t - u)); [lia|reflexivity].
Qed.

(** Between two instants in order and less than [2^63] nanoseconds apart
    the duration in seconds is the whole number of seconds elapsed, or
    that number plus one. *)
Lemma durationSeconds_elapsed (t u : time.Time) :
  u <= t <= u + MaxInt64 ->
  (t - u) / time.Second
  <= durationSeconds (time.Sub t u)
  <= (t - u) / time.Second + 1.
Proof.
  intros H. rewrite Sub_exact by (unfold MinInt64; lia).
  pose proof (durationSeconds_whole_seconds (t - u)) as Hd.
  destruct (Z.leb_spec 0 (t - u)); [|lia].
  rewrite Z.quot_div_nonneg in Hd by (unfold time.Second; lia).
  specialize (Hd ltac:(unfold MinInt64; lia)). lia.
Qed.

(** Past [2^24] seconds the sum in [Seconds] is rounded to the next
    integer when the fraction is close to one. *)
Example durationSeconds_rounds_up :
  durationSeconds (16777216 * time.Second + 999999999) = 16777217.
Proof. vm_compute. reflexivity. Qed.

(** ** The classifier *)

Lemma scanResults_from (results : list monitor.PingResult) (b : bool) (acc : list string) :
  fold_left scanResult results (b, acc) =
    (b && forallb (fun r => negb (monitor.Success r)) results,
     acc ++ map monitor.Host
                (List.filter (fun r => negb (monitor.Success r)) results)).
Proof.
  revert b acc. induction results as [|r results IH]; intros b acc; simpl.
  - now rewrite andb_true_r, app_nil_r.
  - destruct (monitor.Success r); simpl; rewrite IH.
    + now rewrite andb_false_r.
    + now rewrite <- app_assoc.
Qed.

Lemma internetOnline_existsb (entry : storage.LogEntry) :
  internetOnline entry = existsb monitor.Success (storage.Results entry).
Proof.
  unfold internetOnline, scanResults. rewrite scanResults_from. simpl.
  induction (storage.Results entry) as [|r rs IH]; simpl; [reflexivity|].
  rewrite negb_andb, negb_involutive. now rewrite IH.
Qed.

Lemma failedHostsOf_filter (entry : storage.LogEntry) :
  failedHostsOf entry =
    map monitor.Host
        (List.filter (fun r => negb (monitor.Success r)) (storage.Results entry)).
Proof. unfold failedHostsOf, scanResults. now rewrite scanResults_from. Qed.

(** C1.  For a round with at least one probe result the verdict is
    online exactly when some result succeeded; when all results failed the
    round is offline and its failed hosts are the hosts of all its results,
    in input order.  In general the failed hosts are the hosts of the
    failing results, in input order. *)
Theorem classifier_all_fail_rule (entry : storage.LogEntry) :
  storage.Results entry <> [] ->
  (internetOnline entry = true <->
     exists r, In r (storage.Results entry) /\ monitor.Success r = true)
  /\ failedHostsOf entry =
       map monitor.Host
           (List.filter (fun r => negb (monitor.Success r)) (storage.Results entry))
  /\ ((forall r, In r (storage.Results entry) -> monitor.Success r = false) ->
      internetOnline entry = false
      /\ failedHostsOf entry = map monitor.Host (storage.Results entry)).
Proof.
  intros _. split; [|split].
  - rewrite internetOnline_existsb. apply existsb_exists.
  - apply failedHostsOf_filter.
  - intros Hall. split.
    + rewrite internetOnline_existsb. apply not_true_is_false.
      intros [r [Hin Hr]]%existsb_exists. rewrite (Hall r Hin) in Hr. discriminate.
    + rewrite failedHostsOf_filter. f_equal.
      induction (storage.Results entry) as [|r rs IH]; simpl; [reflexivity|].
      rewrite (Hall r) by now left. simpl. f_equal.
      apply IH. intros r' Hr'. apply Hall. now right.
Qed.

Lemma classifier_all_fail_rule_witness :
  storage.Results (round (sec 130) [down "A"; down "B"]) <> []
  /\ internetOnline (round (sec 130) [down "A"; down "B"]) = false
  /\ failedHostsOf (round (sec 130) [down "A"; down "B"]) = ["A"; "B"].
Proof.
  assert (Hne : storage.Results (round (sec 130) [down "A"; down "B"]) <> [])
    by discriminate.
  split; [exact Hne|].
  destruct (classifier_all_fail_rule _ Hne) as (_ & _ & Hall).
  apply Hall. intros r [<-|[<-|[]]]; reflexivity.
Defined.

(** ** The main loop, step by step *)

Lemma runLoop_app (st : LoopState) (l1 l2 : list storage.LogEntry) :
  runLoop st (l1 ++ l2) = runLoop (runLoop st l1) l2.
Proof. apply fold_left_app. Qed.

Lemma runLoop_cons (st : LoopState) (e : storage.LogEntry) (l : list storage.LogEntry) :
  runLoop st (e :: l) = runLoop (processEntry st e) l.
Proof. reflexivity. Qed.

(** Every iteration records the verdict of its round. *)
Lemma processEntry_status (st : LoopState) (e : storage.LogEntry) :
  lastStatus (processEntry st e) = internetOnline e
  /\ statusInitialized (processEntry st e) = true
  /\ inDowntime (processEntry st e) = negb (internetOnline e)
  /\ lastCheckTime (processEntry st e) = Some (storage.Timestamp e)
  /\ currentStatus (processEntry st e) =
       (if internetOnline e then "online" else "offline").
Proof. unfold_step; case_state st; auto. Qed.

(** Online round, no interval open: nothing happens to the events. *)
Lemma processEntry_online_idle (st : LoopState) (e : storage.LogEntry) :
  internetOnline e = true -> inDowntime st = false ->
  downtimeEvents (processEntry st e) = downtimeEvents st.
Proof. intros He Hst. unfold_step; case_state st; auto. Qed.

(** Online round while an interval is open: the interval is closed. *)
Lemma processEntry_online_close (st : LoopState) (e : storage.LogEntry) :
  internetOnline e = true -> inDowntime st = true ->
  downtimeEvents (processEntry st e) = downtimeEvents st ++ [closedEvent st e].
Proof. intros He Hst. unfold_step; case_state st; auto. Qed.

(** Offline round, no interval open: an interval is opened at the
    round's timestamp with the round's failed hosts. *)
Lemma processEntry_offline_open (st : LoopState) (e : storage.LogEntry) :
  internetOnline e = false -> inDowntime st = false ->
  downtimeEvents (processEntry st e) = downtimeEvents st
  /\ downtimeStart (processEntry st e) = storage.Timestamp e
  /\ downtimeFailedHosts (processEntry st e) = failedHostsOf e.
Proof. intros He Hst. unfold_step; case_state st; auto. Qed.

(** Offline round while an interval is open: the interval is kept as
    it is. *)
Lemma processEntry_offline_extend (st : LoopState) (e : storage.LogEntry) :
  internetOnline e = false -> inDowntime st = true ->
  downtimeEvents (processEntry st e) = downtimeEvents st
  /\ downtimeStart (processEntry st e) = downtimeStart st
  /\ downtimeFailedHosts (processEntry st e) = downtimeFailedHosts st.
Proof. intros He Hst. unfold_step; case_state st; auto. Qed.

(** A run of online rounds from a state with no open interval. *)
Lemma runLoop_online_run (st : LoopState) (l : list storage.LogEntry) :
  Forall (fun e => internetOnline e = true) l -> inDowntime st = false ->
  downtimeEvents (runLoop st l) = downtimeEvents st
  /\ inDowntime (runLoop st l) = false.
Proof.
  intros Hl. revert st. induction Hl as [|e l He Hl IH]; intros st Hst.
  - auto.
  - rewrite runLoop_cons.
    destruct (processEntry_status st e) as (_ & _ & Hd & _).
    rewrite He in Hd. destruct (IH _ Hd) as [IHev IHd].
    rewrite IHev, IHd. split; [|reflexivity].
    now apply processEntry_online_idle.
Qed.

(** A run of offline rounds from a state with an open interval. *)
Lemma runLoop_offline_run (st : LoopState) (l : list storage.LogEntry) :
  Forall (fun e => internetOnline e = false) l -> inDowntime st = true ->
  downtimeEvents (runLoop st l) = downtimeEvents st
  /\ downtimeStart (runLoop st l) = downtimeStart st
  /\ downtimeFailedHosts (runLoop st l) = downtimeFailedHosts st
  /\ inDowntime (runLoop st l) = true.
Proof.
  intros Hl. revert st. induction Hl as [|e l He Hl IH]; intros st Hst.
  - auto.
  - rewrite runLoop_cons.
    destruct (processEntry_status st e) as (_ & _ & Hd & _).
    rewrite He in Hd.
    destruct (IH _ Hd) as (IHev & IHs & IHf & IHd).
    destruct (processEntry_offline_extend st e He Hst) as (Hev & Hs & Hf).
    rewrite IHev, IHs, IHf, IHd, Hev, Hs, Hf. auto.
Qed.

(** A non-empty run of offline rounds from a state with no open
    interval: the interval is the one its first round opens. *)
Lemma runLoop_offline_open (st : LoopState) (first : storage.LogEntry)
      (l : list storage.LogEntry) :
  Forall (fun e => internetOnline e = false) (first :: l) -> inDowntime st = false ->
  downtimeEvents (runLoop st (first :: l)) = downtimeEvents st
  /\ downtimeStart (runLoop st (first :: l)) = storage.Timestamp first
  /\ downtimeFailedHosts (runLoop st (first :: l)) = failedHostsOf first
  /\ inDowntime (runLoop st (first :: l)) = true.
Proof.
  intros Hl Hst. inversion Hl as [|? ? He Hl']; subst.
  rewrite runLoop_cons.
  destruct (processEntry_status st first) as (_ & _ & Hd & _).
  rewrite He in Hd.
  destruct (runLoop_offline_run _ l Hl' Hd) as (IHev & IHs & IHf & IHd).
  destruct (processEntry_offline_open st first He Hst) as (Hev & Hs & Hf).
  rewrite IHev, IHs, IHf, IHd, Hev, Hs, Hf. auto.
Qed.

(** The loop never drops an event and only appends closed ones. *)
Lemma runLoop_events_closed (st : LoopState) (l : list storage.LogEntry) :
  exists new,
    downtimeEvents (runLoop st l) = downtimeEvents st ++ new
    /\ Forall (fun ev => IsOngoing ev = false /\ is_Some (EndTime ev)) new.
Proof.
  revert st. induction l as [|e l IH]; intros st.
  - exists []. now rewrite app_nil_r.
  - rewrite runLoop_cons. destruct (IH (processEntry st e)) as (new & Hnew & Hcl).
    rewrite Hnew.
    destruct (internetOnline e) eqn:He, (inDowntime st) eqn:Hst.
    + rewrite processEntry_online_close by assumption.
      exists (closedEvent st e :: new). rewrite <- app_assoc. split; [reflexivity|].
      constructor; [|assumption]. split; [reflexivity|]. now eexists.
    + rewrite processEntry_online_idle by assumption. eauto.
    + destruct (processEntry_offline_extend st e He Hst) as (-> & _). eauto.
    + destruct (processEntry_offline_open st e He Hst) as (-> & _). eauto.
Qed.

Lemma runLoop_lastCheckTime (st : LoopState) (l : list storage.LogEntry) :
  lastCheckTime (runLoop st l) =
    match last l with
    | Some e => Some (storage.Timestamp e)
    | None => lastCheckTime st
    end.
Proof.
  revert st. induction l as [|e l IH]; intros st; [reflexivity|].
  rewrite runLoop_cons, IH.
  destruct (processEntry_status st e) as (_ & _ & _ & Ht & _).
  destruct l as [|e' l]; [exact Ht|]. simpl.
  destruct (last (e' :: l)) eqn:Hl; [reflexivity|].
  apply last_None in Hl. discriminate.
Qed.

(** ** From the loop to the summary *)

Lemma runLoop_snoc (st : LoopState) (l : list storage.LogEntry) (e : storage.LogEntry) :
  runLoop st (l ++ [e]) = processEntry (runLoop st l) e.
Proof. now rewrite runLoop_app. Qed.

Lemma runLoop_endsOnline (pre : list storage.LogEntry) :
  endsOnline pre -> inDowntime (runLoop initialState pre) = false.
Proof.
  unfold endsOnline. destruct (last pre) as [e|] eqn:Hlast.
  - apply last_Some in Hlast as [pre' ->]. intros He.
    rewrite runLoop_snoc.
    destruct (processEntry_status (runLoop initialState pre') e)
      as (_ & _ & -> & _).
    now rewrite He.
  - apply last_None in Hlast as ->. reflexivity.
Qed.

Lemma handleOngoing_open (now : time.Time) (st : LoopState) :
  inDowntime st = true -> is_Some (lastCheckTime st) ->
  downtimeEvents (handleOngoing now st) = downtimeEvents st ++ [ongoingEvent now st].
Proof.
  intros Hst Ht. unfold handleOngoing. fold (inDowntime st). rewrite Hst.
  now rewrite bool_decide_eq_true_2.
Qed.

Lemma handleOngoing_idle (now : time.Time) (st : LoopState) :
  inDowntime st = false ->
  handleOngoing now st = st.
Proof. intros Hst. unfold handleOngoing. fold (inDowntime st). now rewrite Hst. Qed.

Lemma calculateStats_events (now : time.Time) (logs : list storage.LogEntry) :
  DowntimeEvents (calculateStats now logs) =
    reverse (downtimeEvents (handleOngoing now (runLoop initialState logs))).
Proof.
  unfold calculateStats. simpl. apply reverseInPlace_reverse.
Qed.

Lemma calculateStats_recent (now : time.Time) (logs : list storage.LogEntry) :
  RecentDowntime (calculateStats now logs) =
    head (DowntimeEvents (calculateStats now logs)).
Proof.
  unfold calculateStats. simpl. destruct (reverseInPlace _); reflexivity.
Qed.

Lemma runLoop_nonempty_checked (st : LoopState) (l : list storage.LogEntry) :
  l <> [] -> is_Some (lastCheckTime (runLoop st l)).
Proof.
  intros Hl. rewrite runLoop_lastCheckTime.
  apply last_is_Some in Hl as [e ->]. now eexists.
Qed.

(** ** Downtime intervals *)

(** C3.  When the input ends with a run of offline rounds, the summary
    holds exactly one ongoing event.  It comes first, has no end time,
    starts at the timestamp of the first round of that final run, and
    its duration is measured from that start to [now]: it is the whole
    number of seconds between the two, or one more (see
    [durationSeconds_rounds_up]); every other event is closed. *)
Theorem ongoing_event_of_final_offline_run
    (now : time.Time)
    (pre : list storage.LogEntry) (first : storage.LogEntry)
    (run : list storage.LogEntry) :
  endsOnline pre ->
  Forall offline (first :: run) ->
  exists rest,
    DowntimeEvents (calculateStats now (pre ++ first :: run)) =
      {| StartTime := storage.Timestamp first;
         EndTime := None;
         Duration := durationSeconds (time.Since now (storage.Timestamp first));
         IsOngoing := true;
         FailedHosts := failedHostsOf first |} :: rest
    /\ Forall closed rest
    /\ List.filter IsOngoing (DowntimeEvents (calculateStats now (pre ++ first :: run))) =
       [ {| StartTime := storage.Timestamp first;
            EndTime := None;
            Duration := durationSeconds (time.Since now (storage.Timestamp first));
            IsOngoing := true;
            FailedHosts := failedHostsOf first |} ]
    /\ (storage.Timestamp first <= now <= storage.Timestamp first + MaxInt64 ->
        (now - storage.Timestamp first) / time.Second
        <= durationSeconds (time.Since now (storage.Timestamp first))
        <= (now - storage.Timestamp first) / time.Second + 1).
Proof.
  intros Hpre Hrun.
  pose proof (runLoop_endsOnline pre Hpre) as Hidle.
  destruct (runLoop_offline_open _ first run Hrun Hidle) as (Hev & Hs & Hf & Hd).
  destruct (runLoop_events_closed initialState pre) as (old & Hold & Hclosed).
  simpl in Hold.
  rewrite calculateStats_events, runLoop_app.
  rewrite handleOngoing_open; [|exact Hd|now apply runLoop_nonempty_checked].
  unfold ongoingEvent. rewrite Hev, Hs, Hf, Hold, reverse_snoc.
  exists (reverse old). split; [reflexivity|].
  assert (Hrev : Forall closed (reverse old)) by now apply Forall_reverse.
  split; [exact Hrev|]. split; [|apply durationSeconds_elapsed].
  simpl. f_equal.
  clear -Hrev. induction Hrev as [|ev l [Hev _] _ IH]; simpl; [reflexivity|].
  now rewrite Hev.
Qed.

Lemma ongoing_event_of_final_offline_run_witness :
  exists rest,
    DowntimeEvents
      (calculateStats (sec 500)
         ([round (sec 100) [down "A"]; round (sec 130) [up "A"; down "B"]]
          ++ round (sec 160) [down "A"; down "B"] :: [round (sec 190) [down "B"]])) =
      {| StartTime := sec 160; EndTime := None; Duration := 340;
         IsOngoing := true; FailedHosts := ["A"; "B"] |} :: rest.
Proof.
  destruct (ongoing_event_of_final_offline_run (sec 500)
              [round (sec 100) [down "A"]; round (sec 130) [up "A"; down "B"]]
              (round (sec 160) [down "A"; down "B"])
              [round (sec 190) [down "B"]])
    as (rest & Hev & _).
  - reflexivity.
  - repeat constructor.
  - exists rest. exact Hev.
Defined.

(** C4.  Online rounds, then one or more offline rounds, then an online
    round (and online rounds after it): the summary holds exactly one
    event.  It is closed, starts at the timestamp of the first offline
    round, ends at the timestamp of the online round that follows the
    offline ones, and its duration is the seconds between the two: the
    whole number of seconds, or one more (see
    [durationSeconds_rounds_up]). *)
Theorem interval_closure
    (now : time.Time)
    (ons : list storage.LogEntry) (first : storage.LogEntry)
    (offs : list storage.LogEntry) (closing : storage.LogEntry)
    (ons' : list storage.LogEntry) :
  Forall online ons ->
  Forall offline (first :: offs) ->
  online closing ->
  Forall online ons' ->
  DowntimeEvents
    (calculateStats now (ons ++ (first :: offs) ++ closing :: ons')) =
    [ {| StartTime := storage.Timestamp first;
         EndTime := Some (storage.Timestamp closing);
         Duration :=
           durationSeconds
             (time.Sub (storage.Timestamp closing) (storage.Timestamp first));
         IsOngoing := false;
         FailedHosts := failedHostsOf first |} ]
  /\ (storage.Timestamp first <= storage.Timestamp closing
                              <= storage.Timestamp first + MaxInt64 ->
      (storage.Timestamp closing - storage.Timestamp first) / time.Second
      <= durationSeconds
           (time.Sub (storage.Timestamp closing) (storage.Timestamp first))
      <= (storage.Timestamp closing - storage.Timestamp first) / time.Second + 1).
Proof.
  intros Hons Hoffs Hclosing Hons'. split; [|apply durationSeconds_elapsed].
  destruct (runLoop_online_run initialState ons Hons eq_refl) as [Hev0 Hidle0].
  destruct (runLoop_offline_open _ first offs Hoffs Hidle0) as (Hev1 & Hs & Hf & Hd1).
  rewrite calculateStats_events, !runLoop_app, runLoop_cons.
  set (st1 := runLoop (runLoop initialState ons) (first :: offs)) in *.
  pose proof (processEntry_online_close st1 closing Hclosing Hd1) as Hev2.
  destruct (processEntry_status st1 closing) as (_ & _ & Hd2 & _).
  rewrite Hclosing in Hd2.
  destruct (runLoop_online_run _ ons' Hons' Hd2) as [Hev3 Hidle3].
  rewrite handleOngoing_idle by exact Hidle3. simpl.
  rewrite Hev3, Hev2, Hev1, Hev0. unfold closedEvent. now rewrite Hs, Hf.
Qed.

Lemma interval_closure_witness :
  DowntimeEvents
    (calculateStats (sec 500)
       ([round (sec 100) [up "A"; up "B"]]
        ++ (round (sec 130) [down "A"; down "B"] :: [round (sec 160) [down "B"; down "A"]])
        ++ round (sec 190) [up "A"; up "B"] :: [])) =
    [ {| StartTime := sec 130; EndTime := Some (sec 190); Duration := 60;
         IsOngoing := false; FailedHosts := ["A"; "B"] |} ].
Proof.
  apply (interval_closure (sec 500)
           [round (sec 100) [up "A"; up "B"]]
           (round (sec 130) [down "A"; down "B"])
           [round (sec 160) [down "B"; down "A"]]
           (round (sec 190) [up "A"; up "B"]) []).
  - repeat constructor.
  - repeat constructor.
  - reflexivity.
  - constructor.
Defined.

(** ** First-failure attribution *)

(** C8.  Through a run of offline rounds the open interval keeps the
    start and the failed hosts of the first round of the run, whatever
    hosts fail in the later rounds; and the event emitted for the run,
    ongoing when the input ends with the run and closed when an online
    round follows (whatever comes after it), carries the failed hosts of
    that first round. *)
Theorem first_failure_attribution
    (now : time.Time)
    (pre : list storage.LogEntry) (first : storage.LogEntry)
    (run rest : list storage.LogEntry) :
  endsOnline pre ->
  Forall offline (first :: run) ->
  match rest with [] => True | closing :: _ => online closing end ->
  (forall k : nat,
     downtimeFailedHosts (runLoop initialState (pre ++ first :: take k run)) =
       failedHostsOf first
     /\ downtimeStart (runLoop initialState (pre ++ first :: take k run)) =
       storage.Timestamp first)
  /\ exists ev,
       ev ∈ DowntimeEvents (calculateStats now (pre ++ (first :: run) ++ rest))
       /\ StartTime ev = storage.Timestamp first
       /\ FailedHosts ev = failedHostsOf first
       /\ IsOngoing ev = (if rest is [] then true else false)
       /\ EndTime ev = storage.Timestamp <$> head rest.
Proof.
  intros Hpre Hrun Hrest.
  pose proof (runLoop_endsOnline pre Hpre) as Hidle.
  split.
  - intros k. rewrite runLoop_app.
    destruct (runLoop_offline_open (runLoop initialState pre) first (take k run))
      as (_ & Hs & Hf & _); [|exact Hidle|now split].
    inversion Hrun; subst. constructor; [assumption|]. now apply Forall_take.
  - destruct (runLoop_offline_open _ first run Hrun Hidle) as (Hev & Hs & Hf & Hd).
    rewrite calculateStats_events, !runLoop_app.
    set (st := runLoop (runLoop initialState pre) (first :: run)) in *.
    destruct rest as [|closing rest].
    + exists (ongoingEvent now st). simpl runLoop.
      rewrite handleOngoing_open;
        [|exact Hd|now apply runLoop_nonempty_checked].
      split; [|now rewrite <- Hs, <- Hf].
      apply elem_of_reverse, elem_of_app. right. now left.
    + exists (closedEvent st closing).
      split; [|unfold closedEvent; simpl; now rewrite Hs, Hf].
      apply elem_of_reverse. rewrite runLoop_cons.
      destruct (runLoop_events_closed (processEntry st closing) rest)
        as (new & Hnew & _).
      rewrite processEntry_online_close in Hnew by assumption.
      assert (Hin : closedEvent st closing
                      ∈ downtimeEvents (runLoop (processEntry st closing) rest)).
      { rewrite Hnew, !elem_of_app. left. right. now left. }
      unfold handleOngoing. destruct (_ && _); simpl; [|exact Hin].
      apply elem_of_app. now left.
Qed.

Lemma first_failure_attribution_witness :
  exists ev,
    ev ∈ DowntimeEvents
           (calculateStats (sec 500)
              ([round (sec 100) [up "A"; up "B"; up "C"]]
               ++ (round (sec 130) [down "A"; down "B"; down "C"]
                   :: [round (sec 160) [down "C"]])
               ++ [round (sec 190) [up "A"; down "B"]]))
    /\ StartTime ev = sec 130
    /\ FailedHosts ev = ["A"; "B"; "C"]
    /\ IsOngoing ev = false
    /\ EndTime ev = Some (sec 190).
Proof.
  destruct (first_failure_attribution (sec 500)
              [round (sec 100) [up "A"; up "B"; up "C"]]
              (round (sec 130) [down "A"; down "B"; down "C"])
              [round (sec 160) [down "C"]]
              [round (sec 190) [up "A"; down "B"]])
    as [_ (ev & Hev)].
  - reflexivity.
  - repeat constructor.
  - reflexivity.
  - exists ev. exact Hev.
Defined.

(** ** Ordering of the events *)

Lemma StronglySorted_snoc {A : Type} (R : relation A) (l : list A) (x : A) :
  StronglySorted R l -> Forall (fun y => R y x) l -> StronglySorted R (l ++ [x]).
Proof.
  intros Hl Hx. apply StronglySorted_app_2.
  - intros y x' Hy ->%list_elem_of_singleton.
    rewrite Forall_forall in Hx. now apply Hx.
  - exact Hl.
  - repeat constructor.
Qed.

Lemma StronglySorted_reverse {A : Type} (R : relation A) (l : list A) :
  StronglySorted R l -> StronglySorted (flip R) (reverse l).
Proof.
  induction 1 as [|x l Hl IH Hx].
  - constructor.
  - rewrite reverse_cons. apply StronglySorted_snoc; [exact IH|].
    now apply Forall_reverse.
Qed.

Lemma chronological_step (t : time.Time) (st : LoopState) (e : storage.LogEntry) :
  chronological t st -> t <= storage.Timestamp e ->
  chronological (storage.Timestamp e) (processEntry st e).
Proof.
  intros (Hsorted & Hbound & Hopen) Hle.
  assert (Hbound' : Forall (fun ev => StartTime ev <= storage.Timestamp e)
                           (downtimeEvents st)).
  { eapply Forall_impl; [exact Hbound|]. simpl. intros; lia. }
  destruct (processEntry_status st e) as (_ & _ & Hd & _).
  unfold chronological. rewrite Hd.
  destruct (internetOnline e) eqn:He, (inDowntime st) eqn:Hst; simpl.
  - destruct Hopen as [Hstart Hbefore]; [reflexivity|].
    rewrite processEntry_online_close by assumption.
    split; [|split; [|discriminate]].
    + now apply StronglySorted_snoc.
    + apply Forall_app_2; [exact Hbound'|]. repeat constructor. simpl. lia.
  - rewrite processEntry_online_idle by assumption.
    split; [exact Hsorted|]. split; [exact Hbound'|discriminate].
  - destruct (processEntry_offline_extend st e He Hst) as (-> & -> & _).
    destruct Hopen as [Hstart Hbefore]; [reflexivity|].
    split; [exact Hsorted|]. split; [exact Hbound'|]. intros _. split; [lia|exact Hbefore].
  - destruct (processEntry_offline_open st e He Hst) as (-> & -> & _).
    split; [exact Hsorted|]. split; [exact Hbound'|]. intros _. split; [lia|exact Hbound'].
Qed.

Lemma chronological_run (t : time.Time) (st : LoopState) (logs : list storage.LogEntry) :
  chronological t st ->
  StronglySorted Z.le (t :: map storage.Timestamp logs) ->
  exists t', chronological t' (runLoop st logs).
Proof.
  revert t st. induction logs as [|e logs IH]; intros t st Hst Hsorted.
  - now exists t.
  - rewrite runLoop_cons. simpl in Hsorted.
    apply StronglySorted_inv in Hsorted as [Htail Hhd].
    apply (IH (storage.Timestamp e)); [|exact Htail].
    apply (chronological_step t); [exact Hst|]. now inversion Hhd.
Qed.

Lemma chronological_initial (t : time.Time) : chronological t initialState.
Proof. split; [constructor|]. split; [constructor|discriminate]. Qed.

Lemma ascending_chronological (logs : list storage.LogEntry) :
  ascending logs -> exists t, chronological t (runLoop initialState logs).
Proof.
  intros Hasc%(Sorted_StronglySorted Z.le).
  destruct logs as [|e logs].
  - exists 0. apply chronological_initial.
  - apply (chronological_run (storage.Timestamp e)).
    + apply chronological_initial.
    + simpl in *. constructor; [exact Hasc|].
      apply StronglySorted_inv in Hasc as [_ Hhd].
      constructor; [lia|exact Hhd].
Qed.

Lemma handleOngoing_sorted (now t : time.Time) (st : LoopState) :
  chronological t st ->
  StronglySorted startsBefore (downtimeEvents (handleOngoing now st)).
Proof.
  intros (Hsorted & _ & Hopen). unfold handleOngoing. fold (inDowntime st).
  destruct (inDowntime st); simpl; [|exact Hsorted].
  destruct (bool_decide _); simpl; [|exact Hsorted].
  destruct Hopen as [_ Hbefore]; [reflexivity|].
  now apply StronglySorted_snoc.
Qed.

Lemma handleOngoing_closed_tail (now : time.Time) (l : list storage.LogEntry) :
  Forall closed
    (tail (reverse (downtimeEvents (handleOngoing now (runLoop initialState l))))).
Proof.
  destruct (runLoop_events_closed initialState l) as (new & Hnew & Hclosed).
  simpl in Hnew. unfold handleOngoing.
  destruct (_ && _); simpl; rewrite Hnew.
  - rewrite reverse_snoc. simpl. now apply Forall_reverse.
  - apply Forall_tail. now apply Forall_reverse.
Qed.

(** C5.  For rounds in ascending order of timestamp the events of the
    summary are ordered most recent first; every event after the first
    one is closed, so an ongoing event can only be the first; and
    [RecentDowntime] is the first event, or absent when there is none. *)
Theorem events_most_recent_first
    (now : time.Time) (logs : list storage.LogEntry) :
  ascending logs ->
  mostRecentFirst (DowntimeEvents (calculateStats now logs))
  /\ Forall closed (tail (DowntimeEvents (calculateStats now logs)))
  /\ (forall (i : nat) (ev : DowntimeEvent),
        DowntimeEvents (calculateStats now logs) !! i = Some ev ->
        IsOngoing ev = true -> i = 0%nat)
  /\ RecentDowntime (calculateStats now logs) =
       head (DowntimeEvents (calculateStats now logs)).
Proof.
  intros Hasc.
  destruct (ascending_chronological logs Hasc) as [t Ht].
  pose proof (handleOngoing_closed_tail now logs) as Htail.
  rewrite <- calculateStats_events in Htail.
  split; [|split; [exact Htail|split]].
  - rewrite calculateStats_events. apply StronglySorted_reverse.
    now apply (handleOngoing_sorted now t).
  - intros [|i] ev Hi Hev; [reflexivity|].
    destruct (DowntimeEvents (calculateStats now logs)) as [|ev0 evs];
      [discriminate|].
    simpl in Hi, Htail. rewrite Forall_forall in Htail.
    destruct (Htail ev) as [Hcl _].
    + apply list_elem_of_lookup. now exists i.
    + congruence.
  - apply calculateStats_recent.
Qed.

Lemma events_most_recent_first_witness :
  mostRecentFirst
    (DowntimeEvents
       (calculateStats (sec 500)
          [round (sec 100) [down "A"]; round (sec 130) [up "A"];
           round (sec 160) [down "A"]]))
  /\ RecentDowntime
       (calculateStats (sec 500)
          [round (sec 100) [down "A"]; round (sec 130) [up "A"];
           round (sec 160) [down "A"]]) =
     Some {| StartTime := sec 160; EndTime := None; Duration := 340;
             IsOngoing := true; FailedHosts := ["A"] |}.
Proof.
  destruct (events_most_recent_first (sec 500)
              [round (sec 100) [down "A"]; round (sec 130) [up "A"];
               round (sec 160) [down "A"]])
    as (Hsorted & _ & _ & Hrecent).
  - repeat constructor; vm_compute; discriminate.
  - split; [exact Hsorted|]. rewrite Hrecent. reflexivity.
Defined.

(** ** Counters *)

Lemma int_wrap_id (z : Z) : MinInt64 <= z <= MaxInt -> int_wrap z = z.
Proof.
  unfold MinInt64, MaxInt, MaxInt64, int_wrap, int64_wrap. intros Hz.
  rewrite Z.mod_small by lia. lia.
Qed.

Lemma countVerdict_cons (verdict : bool) (e : storage.LogEntry)
      (logs : list storage.LogEntry) :
  countVerdict verdict (e :: logs) =
    (if eqb (internetOnline e) verdict then 1 else 0) + countVerdict verdict logs.
Proof.
  unfold countVerdict. simpl. destruct (eqb _ _); simpl length; lia.
Qed.

Lemma countVerdict_nonneg (verdict : bool) (logs : list storage.LogEntry) :
  0 <= countVerdict verdict logs.
Proof. unfold countVerdict. lia. Qed.

Lemma countVerdict_total (logs : list storage.LogEntry) :
  countVerdict true logs + countVerdict false logs = Z.of_nat (length logs).
Proof.
  induction logs as [|e logs IH]; [reflexivity|].
  rewrite !countVerdict_cons. simpl length.
  destruct (internetOnline e); simpl; lia.
Qed.

Lemma processEntry_counters (st : LoopState) (e : storage.LogEntry) :
  onlineChecks (processEntry st e) =
    (if internetOnline e then int_wrap (onlineChecks st + 1) else onlineChecks st)
  /\ offlineChecks (processEntry st e) =
    (if internetOnline e then offlineChecks st else int_wrap (offlineChecks st + 1)).
Proof. unfold_step; case_state st; auto. Qed.

(** As long as the number of rounds fits in an [int] the counters do
    not wrap: they count the online and the offline rounds. *)
Lemma runLoop_counters (st : LoopState) (logs : list storage.LogEntry) :
  0 <= onlineChecks st -> 0 <= offlineChecks st ->
  onlineChecks st + offlineChecks st + Z.of_nat (length logs) <= MaxInt ->
  onlineChecks (runLoop st logs) = onlineChecks st + countVerdict true logs
  /\ offlineChecks (runLoop st logs) = offlineChecks st + countVerdict false logs.
Proof.
  revert st. induction logs as [|e logs IH]; intros st Hon Hoff Hlen.
  - unfold countVerdict. simpl. lia.
  - rewrite runLoop_cons, !countVerdict_cons.
    destruct (processEntry_counters st e) as [Hon' Hoff'].
    simpl length in Hlen. unfold MaxInt, MaxInt64 in *.
    destruct (internetOnline e); simpl;
      rewrite int_wrap_id in * by (unfold MinInt64, MaxInt, MaxInt64; lia);
      (destruct (IH (processEntry st e)) as [-> ->]; [lia..|]);
      rewrite Hon', Hoff'; lia.
Qed.

Lemma handleOngoing_counters (now : time.Time) (st : LoopState) :
  onlineChecks (handleOngoing now st) = onlineChecks st
  /\ offlineChecks (handleOngoing now st) = offlineChecks st.
Proof. unfold handleOngoing. now destruct (_ && _). Qed.

Lemma calculateStats_counters (now : time.Time) (logs : list storage.LogEntry) :
  Z.of_nat (length logs) <= MaxInt ->
  TotalChecks (calculateStats now logs) = Z.of_nat (length logs)
  /\ OnlineChecks (calculateStats now logs) = countVerdict true logs
  /\ OfflineChecks (calculateStats now logs) = countVerdict false logs.
Proof.
  intros Hlen.
  destruct (runLoop_counters initialState logs) as [Hon Hoff]; simpl; [lia..|].
  destruct (handleOngoing_counters now (runLoop initialState logs)) as [Hon' Hoff'].
  unfold calculateStats. simpl. rewrite Hon', Hoff'. auto.
Qed.

(** C9.  When every round has at least one probe result (and the number
    of rounds fits in an [int], as the length of a slice does) the
    online and the offline checks add up to the total. *)
Theorem no_double_counting
    (now : time.Time) (logs : list storage.LogEntry) :
  Forall (fun e => storage.Results e <> []) logs ->
  Z.of_nat (length logs) <= MaxInt ->
  OnlineChecks (calculateStats now logs)
  + OfflineChecks (calculateStats now logs)
  = TotalChecks (calculateStats now logs).
Proof.
  intros _ Hlen.
  destruct (calculateStats_counters now logs Hlen) as (-> & -> & ->).
  apply countVerdict_total.
Qed.

Lemma no_double_counting_witness :
  OnlineChecks (calculateStats (sec 500)
    [round (sec 100) [up "A"]; round (sec 130) [down "A"]; round (sec 160) [down "A"]])
  + OfflineChecks (calculateStats (sec 500)
    [round (sec 100) [up "A"]; round (sec 130) [down "A"]; round (sec 160) [down "A"]])
  = 3.
Proof.
  apply (no_double_counting (sec 500)
    [round (sec 100) [up "A"]; round (sec 130) [down "A"]; round (sec 160) [down "A"]]).
  - repeat constructor; discriminate.
  - vm_compute. discriminate.
Defined.

(** ** Uptime percentage *)

Lemma percentage_bounds (n d : Z) :
  0 <= n <= d -> 0 < d ->
  (0 <= float64.mul (float64.div (float64.of_int n) (float64.of_int d)) 100
     <= 100)%Q.
Proof.
  intros Hn Hd. unfold float64.mul, float64.div, float64.of_int.
  destruct round_fixes as (H0 & H1 & H100).
  assert (Hlow : forall q : Q, (0 <= q)%Q -> (0 <= float64.round q)%Q).
  { intros q Hq. apply Qle_trans with (float64.round 0%Q); [|now apply round_mono].
    apply Qle_lteq. right. symmetry. exact H0. }
  assert (Hone : forall q : Q, (q <= 1)%Q -> (float64.round q <= 1)%Q).
  { intros q Hq. apply Qle_trans with (float64.round 1%Q); [now apply round_mono|].
    apply Qle_lteq. right. exact H1. }
  assert (Hn0 : (0 <= float64.round (inject_Z n))%Q).
  { apply Hlow. change 0%Q with (inject_Z 0). rewrite <- Zle_Qle. lia. }
  assert (Hnd : (float64.round (inject_Z n) <= float64.round (inject_Z d))%Q).
  { apply round_mono. rewrite <- Zle_Qle. lia. }
  assert (Hd1 : (1 <= float64.round (inject_Z d))%Q).
  { apply Qle_trans with (float64.round 1%Q).
    - apply Qle_lteq. right. symmetry. exact H1.
    - apply round_mono. change 1%Q with (inject_Z 1). rewrite <- Zle_Qle. lia. }
  set (x := float64.round (inject_Z n)) in *.
  set (y := float64.round (inject_Z d)) in *.
  assert (Hq0 : (0 <= x / y)%Q).
  { apply Qle_shift_div_l; lra. }
  assert (Hq1 : (x / y <= 1)%Q).
  { apply Qle_shift_div_r; lra. }
  pose proof (Hlow _ Hq0) as Hr0. pose proof (Hone _ Hq1) as Hr1.
  split.
  - apply Hlow. lra.
  - apply Qle_trans with (float64.round 100%Q).
    + apply round_mono. lra.
    + apply Qle_lteq. right. exact H100.
Qed.

(** C7.  The uptime percentage is [onlineChecks / totalChecks * 100],
    computed in [float64], when there is at least one check and [0] when
    there is none; it lies between 0 and 100. *)
Theorem uptime_percentage
    (now : time.Time) (logs : list storage.LogEntry) :
  Z.of_nat (length logs) <= MaxInt ->
  (0 < TotalChecks (calculateStats now logs) ->
   UptimePercentage (calculateStats now logs) =
     float64.mul
       (float64.div
          (float64.of_int (OnlineChecks (calculateStats now logs)))
          (float64.of_int (TotalChecks (calculateStats now logs))))
       100)
  /\ (TotalChecks (calculateStats now logs) = 0 ->
      UptimePercentage (calculateStats now logs) = 0%Q)
  /\ (0 <= UptimePercentage (calculateStats now logs) <= 100)%Q.
Proof.
  intros Hlen.
  destruct (calculateStats_counters now logs Hlen) as (Htotal & Hon & _).
  pose proof (countVerdict_total logs) as Hsum.
  pose proof (countVerdict_nonneg true logs) as Hge.
  pose proof (countVerdict_nonneg false logs) as Hge'.
  assert (Hup : UptimePercentage (calculateStats now logs) =
                if 0 <? TotalChecks (calculateStats now logs)
                then float64.mul
                       (float64.div
                          (float64.of_int (OnlineChecks (calculateStats now logs)))
                          (float64.of_int (TotalChecks (calculateStats now logs))))
                       100
                else 0%Q).
  { reflexivity. }
  rewrite Hup. destruct (Z.ltb_spec 0 (TotalChecks (calculateStats now logs))) as [Hpos|Hzero].
  - split; [reflexivity|]. split; [lia|].
    apply percentage_bounds; [|exact Hpos].
    rewrite Hon, Htotal. lia.
  - split; [lia|]. split; [reflexivity|]. split; discriminate.
Qed.

Lemma uptime_percentage_witness :
  (UptimePercentage (calculateStats (sec 500)
     [round (sec 100) [up "A"]; round (sec 130) [down "A"];
      round (sec 160) [down "A"]; round (sec 190) [up "A"]]) == 50)%Q
  /\ (0 <= UptimePercentage (calculateStats (sec 500)
     [round (sec 100) [up "A"]; round (sec 130) [down "A"];
      round (sec 160) [down "A"]; round (sec 190) [up "A"]]) <= 100)%Q.
Proof.
  destruct (uptime_percentage (sec 500)
     [round (sec 100) [up "A"]; round (sec 130) [down "A"];
      round (sec 160) [down "A"]; round (sec 190) [up "A"]])
    as (Heq & _ & Hbounds).
  - vm_compute. discriminate.
  - split; [|exact Hbounds]. rewrite Heq by reflexivity. reflexivity.
Defined.

(** ** Empty and degenerate input *)

(** C6.  On an empty sequence of rounds the summary has no check, an
    uptime percentage of 0, status ["online"], no event and no recent
    downtime. *)
Theorem empty_input (now : time.Time) :
  TotalChecks (calculateStats now []) = 0
  /\ UptimePercentage (calculateStats now []) = 0%Q
  /\ CurrentStatus (calculateStats now []) = "online"
  /\ DowntimeEvents (calculateStats now []) = []
  /\ RecentDowntime (calculateStats now []) = None.
Proof. repeat split. Qed.

(** What the summary is with and without a round that has no probe
    result, after an online round. *)
Example degenerate_round_values :
  TotalChecks (calculateStats (sec 500)
                 [round (sec 100) [up "A"]; round (sec 130) []]) = 2
  /\ TotalChecks (calculateStats (sec 500)
                 [round (sec 100) [up "A"]]) = 1
  /\ OfflineChecks (calculateStats (sec 500)
                 [round (sec 100) [up "A"]; round (sec 130) []]) = 1
  /\ OfflineChecks (calculateStats (sec 500)
                 [round (sec 100) [up "A"]]) = 0
  /\ CurrentStatus (calculateStats (sec 500)
                 [round (sec 100) [up "A"]; round (sec 130) []]) = "offline"
  /\ CurrentStatus (calculateStats (sec 500)
                 [round (sec 100) [up "A"]]) = "online"
  /\ DowntimeEvents (calculateStats (sec 500)
                 [round (sec 100) [up "A"]; round (sec 130) []]) =
       [ {| StartTime := sec 130; EndTime := None; Duration := 370;
            IsOngoing := true; FailedHosts := [] |} ]
  /\ DowntimeEvents (calculateStats (sec 500)
                 [round (sec 100) [up "A"]]) = [].
Proof. vm_compute. repeat split; reflexivity. Qed.

(** C2, as the specification states it, fails: a round without probe
    results after an online round is not skipped.  It is counted as a
    check and as an offline check, turns the status to ["offline"] and
    opens a downtime interval. *)
Lemma degenerate_round_is_not_skipped :
  storage.Results (round (sec 130) []) = []
  /\ ~ skipped (sec 500) [round (sec 100) [up "A"]] (round (sec 130) []) []
  /\ TotalChecks (calculateStats (sec 500)
                    ([round (sec 100) [up "A"]] ++ round (sec 130) [] :: []))
     <> TotalChecks (calculateStats (sec 500) ([round (sec 100) [up "A"]] ++ []))
  /\ OfflineChecks (calculateStats (sec 500)
                    ([round (sec 100) [up "A"]] ++ round (sec 130) [] :: []))
     <> OfflineChecks (calculateStats (sec 500) ([round (sec 100) [up "A"]] ++ []))
  /\ CurrentStatus (calculateStats (sec 500)
                    ([round (sec 100) [up "A"]] ++ round (sec 130) [] :: []))
     <> CurrentStatus (calculateStats (sec 500) ([round (sec 100) [up "A"]] ++ []))
  /\ DowntimeEvents (calculateStats (sec 500)
                    ([round (sec 100) [up "A"]] ++ round (sec 130) [] :: []))
     <> DowntimeEvents (calculateStats (sec 500) ([round (sec 100) [up "A"]] ++ [])).
Proof.
  split; [reflexivity|]. split.
  - intros (Htotal & _). vm_compute in Htotal. discriminate.
  - repeat split; vm_compute; discriminate.
Qed.

(** C2, amended.  A round without probe results is an offline round with
    no failed host.  The loop counts it as an offline check and not as an
    online one, sets the status to ["offline"], appends no event, opens an
    interval at the round's timestamp when none is open and leaves an open
    interval as it is; and the total counts every round. *)
Theorem degenerate_round_is_offline
    (st : LoopState) (e : storage.LogEntry) :
  storage.Results e = [] ->
  offline e
  /\ failedHostsOf e = []
  /\ onlineChecks (processEntry st e) = onlineChecks st
  /\ offlineChecks (processEntry st e) = int_wrap (offlineChecks st + 1)
  /\ currentStatus (processEntry st e) = "offline"
  /\ inDowntime (processEntry st e) = true
  /\ downtimeEvents (processEntry st e) = downtimeEvents st
  /\ (inDowntime st = false ->
      downtimeStart (processEntry st e) = storage.Timestamp e
      /\ downtimeFailedHosts (processEntry st e) = [])
  /\ (inDowntime st = true ->
      downtimeStart (processEntry st e) = downtimeStart st
      /\ downtimeFailedHosts (processEntry st e) = downtimeFailedHosts st)
  /\ (forall (now : time.Time) (pre post : list storage.LogEntry),
        TotalChecks (calculateStats now (pre ++ e :: post)) =
        TotalChecks (calculateStats now (pre ++ post)) + 1).
Proof.
  intros He.
  assert (Hoff : internetOnline e = false) by (unfold internetOnline; now rewrite He).
  assert (Hfailed : failedHostsOf e = []) by (unfold failedHostsOf; now rewrite He).
  destruct (processEntry_counters st e) as [Hon Hoffc].
  destruct (processEntry_status st e) as (_ & _ & Hd & _ & Hcur).
  rewrite Hoff in *. simpl in Hd.
  repeat split; try assumption.
  - destruct (inDowntime st) eqn:Hst.
    + now destruct (processEntry_offline_extend st e Hoff Hst).
    + now destruct (processEntry_offline_open st e Hoff Hst).
  - now destruct (processEntry_offline_open st e Hoff H).
  - destruct (processEntry_offline_open st e Hoff H) as (_ & _ & ->).
    exact Hfailed.
  - now destruct (processEntry_offline_extend st e Hoff H).
  - now destruct (processEntry_offline_extend st e Hoff H).
  - intros now pre post.
    assert (Htotal : forall l, TotalChecks (calculateStats now l) = Z.of_nat (length l)).
    { reflexivity. }
    rewrite !Htotal, !length_app. simpl length. lia.
Qed.

Lemma degenerate_round_is_offline_witness :
  offline (round (sec 130) [])
  /\ CurrentStatus (calculateStats (sec 500)
                      ([round (sec 100) [up "A"]] ++ round (sec 130) [] :: [])) = "offline"
  /\ TotalChecks (calculateStats (sec 500)
                    ([round (sec 100) [up "A"]] ++ round (sec 130) [] :: [])) = 2.
Proof.
  destruct (degenerate_round_is_offline
              (runLoop initialState [round (sec 100) [up "A"]])
              (round (sec 130) []) eq_refl)
    as (Hoff & _ & _ & _ & Hcur & _ & _ & _ & _ & Htotal).
  split; [exact Hoff|]. split; [reflexivity|].
  rewrite Htotal. reflexivity.
Defined.

(** ** What the summary reads *)

Lemma scanResults_sameProbe (rs1 rs2 : list monitor.PingResult) :
  Forall2 sameProbe rs1 rs2 -> scanResults rs1 = scanResults rs2.
Proof.
  unfold scanResults. intros H. generalize (true, @nil string).
  induction H as [|r1 r2 rs1 rs2 [Hhost Hsuccess] _ IH]; intros acc; simpl.
  - reflexivity.
  - replace (scanResult acc r2) with (scanResult acc r1); [apply IH|].
    unfold scanResult. now rewrite Hhost, Hsuccess.
Qed.

Lemma processEntry_sameRound (st : LoopState) (e1 e2 : storage.LogEntry) :
  sameRound e1 e2 -> processEntry st e1 = processEntry st e2.
Proof.
  intros [Hts Hrs]. unfold processEntry.
  now rewrite (scanResults_sameProbe _ _ Hrs), Hts.
Qed.

Lemma runLoop_sameRound (st : LoopState) (logs1 logs2 : list storage.LogEntry) :
  Forall2 sameRound logs1 logs2 -> runLoop st logs1 = runLoop st logs2.
Proof.
  intros H. revert st. induction H as [|e1 e2 logs1 logs2 He _ IH]; intros st.
  - reflexivity.
  - rewrite !runLoop_cons, (processEntry_sameRound st e1 e2 He). apply IH.
Qed.

(** C10.  Two log sequences whose rounds agree on the timestamp and whose
    probe results agree on host and success (they may differ in latency
    and in error, and in the probe's own timestamp) have the same summary
    at the same [now]. *)
Theorem stats_independent_of_latency_and_error
    (now : time.Time) (logs1 logs2 : list storage.LogEntry) :
  Forall2 sameRound logs1 logs2 ->
  calculateStats now logs1 = calculateStats now logs2.
Proof.
  intros H. unfold calculateStats.
  now rewrite (runLoop_sameRound initialState logs1 logs2 H),
              (Forall2_length _ _ _ H).
Qed.

Lemma stats_independent_of_latency_and_error_witness :
  calculateStats (sec 500)
    [ {| storage.Timestamp := sec 100;
         storage.Results :=
           [ {| monitor.Host := "A"; monitor.Success := false; monitor.Latency := 5000;
                monitor.Error := "i/o timeout"; monitor.Timestamp := sec 100 |} ] |} ]
  = calculateStats (sec 500)
    [ {| storage.Timestamp := sec 100;
         storage.Results :=
           [ {| monitor.Host := "A"; monitor.Success := false; monitor.Latency := 7;
                monitor.Error := "connection refused"; monitor.Timestamp := sec 100 |} ] |} ].
Proof.
  apply stats_independent_of_latency_and_error.
  repeat constructor.
Defined.

(** ** The scenarios of the specification, evaluated *)

(** Scenario 1: up, down (A and B), down, up.  The sixtieth of an hour
    is not a binary64 number: the total downtime is the nearest one. *)
Example scenario_closed_interval :
  calculateStats (sec 500)
    [round (sec 100) [up "A"; up "B"]; round (sec 130) [down "A"; down "B"];
     round (sec 160) [down "A"; down "B"]; round (sec 190) [up "A"; up "B"]] =
    {| CurrentStatus := "online";
       TotalChecks := 4; OnlineChecks := 2; OfflineChecks := 2;
       UptimePercentage := 50;
       TotalDowntimeHours := 4803839602528529 # 288230376151711744;
       DowntimeEvents :=
         [ {| StartTime := sec 130; EndTime := Some (sec 190); Duration := 60;
              IsOngoing := false; FailedHosts := ["A"; "B"] |} ];
       RecentDowntime :=
         Some {| StartTime := sec 130; EndTime := Some (sec 190); Duration := 60;
                 IsOngoing := false; FailedHosts := ["A"; "B"] |};
       TimeSinceLastCheck := Some (sec 190) |}.
Proof. vm_compute. reflexivity. Qed.

(** Scenario 2: a single round, all down. *)
Example scenario_single_offline_round :
  DowntimeEvents (calculateStats (sec 500) [round (sec 100) [down "A"]]) =
    [ {| StartTime := sec 100; EndTime := None; Duration := 400;
         IsOngoing := true; FailedHosts := ["A"] |} ]
  /\ CurrentStatus (calculateStats (sec 500) [round (sec 100) [down "A"]]) = "offline".
Proof. vm_compute. split; reflexivity. Qed.

(** Scenario 3: one host up, one host down. *)
Example scenario_partial_failure :
  internetOnline (round (sec 100) [up "A"; down "B"]) = true
  /\ failedHostsOf (round (sec 100) [up "A"; down "B"]) = ["B"]
  /\ DowntimeEvents (calculateStats (sec 500) [round (sec 100) [up "A"; down "B"]]) = [].
Proof. vm_compute. repeat split; reflexivity. Qed.

(** Scenario 5: down, up, down. *)
Example scenario_ongoing_after_closed :
  DowntimeEvents
    (calculateStats (sec 500)
       [round (sec 100) [down "A"]; round (sec 130) [up "A"];
        round (sec 160) [down "A"]]) =
    [ {| StartTime := sec 160; EndTime := None; Duration := 340;
         IsOngoing := true; FailedHosts := ["A"] |};
      {| StartTime := sec 100; EndTime := Some (sec 130); Duration := 30;
         IsOngoing := false; FailedHosts := ["A"] |} ].
Proof. vm_compute. reflexivity. Qed.

(** * Further properties of [calculateStats] *)

(** ** Total downtime, status and last check *)

Lemma int64_wrap_add_l (a b : Z) : int64_wrap (int64_wrap a + b) = int64_wrap (a + b).
Proof.
  unfold int64_wrap. f_equal.
  replace ((a + 2 ^ 63) mod 2 ^ 64 - 2 ^ 63 + b + 2 ^ 63)
    with ((a + 2 ^ 63) mod 2 ^ 64 + b) by lia.
  rewrite Zplus_mod_idemp_l. f_equal. lia.
Qed.

Lemma sum_durations_snoc (events : list DowntimeEvent) (ev : DowntimeEvent) :
  foldr (fun ev acc => Duration ev + acc) 0 (events ++ [ev]) =
    foldr (fun ev acc => Duration ev + acc) 0 events + Duration ev.
Proof. induction events as [|ev' events IH]; simpl; lia. Qed.

Lemma totalDuration_snoc (events : list DowntimeEvent) (ev : DowntimeEvent) :
  totalDuration (events ++ [ev]) = int64_wrap (totalDuration events + Duration ev).
Proof. unfold totalDuration. now rewrite int64_wrap_add_l, sum_durations_snoc. Qed.

Lemma totalDuration_reverse (events : list DowntimeEvent) :
  totalDuration (reverse events) = totalDuration events.
Proof.
  unfold totalDuration. f_equal.
  induction events as [|ev events IH]; [reflexivity|].
  rewrite reverse_cons, sum_durations_snoc, IH. simpl. lia.
Qed.

Lemma coherent_initial : coherent initialState.
Proof. repeat split. discriminate. Qed.

Lemma coherent_step (st : LoopState) (e : storage.LogEntry) :
  coherent st -> coherent (processEntry st e).
Proof.
  intros (Htotal & Hstatus & Hcheck).
  destruct (processEntry_status st e) as (_ & _ & Hd & Ht & Hcur).
  unfold coherent. rewrite Hd, Ht, Hcur.
  split; [|split; [now destruct (internetOnline e)|now eexists]].
  destruct (internetOnline e) eqn:He, (inDowntime st) eqn:Hst.
  - rewrite processEntry_online_close by assumption.
    rewrite totalDuration_snoc, <- Htotal. clear Hd Hcur.
    unfold_step; case_state st; reflexivity.
  - rewrite processEntry_online_idle by assumption. rewrite <- Htotal.
    clear Hd Hcur. unfold_step; case_state st; reflexivity.
  - destruct (processEntry_offline_extend st e He Hst) as (-> & _).
    rewrite <- Htotal. clear Hd Hcur. unfold_step; case_state st; reflexivity.
  - destruct (processEntry_offline_open st e He Hst) as (-> & _).
    rewrite <- Htotal. clear Hd Hcur. unfold_step; case_state st; reflexivity.
Qed.

Lemma coherent_run (st : LoopState) (logs : list storage.LogEntry) :
  coherent st -> coherent (runLoop st logs).
Proof.
  revert st. induction logs as [|e logs IH]; intros st Hst; [exact Hst|].
  rewrite runLoop_cons. apply IH. now apply coherent_step.
Qed.

Lemma handleOngoing_frame (now : time.Time) (st : LoopState) :
  currentStatus (handleOngoing now st) = currentStatus st
  /\ lastCheckTime (handleOngoing now st) = lastCheckTime st.
Proof. unfold handleOngoing. now destruct (_ && _). Qed.

(** X1.  The total downtime of the summary is the sum, in [int64], of the
    durations of the events it lists, closed and ongoing, converted to
    hours in [float64]. *)
Theorem total_downtime_is_sum_of_events
    (now : time.Time) (logs : list storage.LogEntry) :
  TotalDowntimeHours (calculateStats now logs) =
    float64.div
      (float64.of_int (totalDuration (DowntimeEvents (calculateStats now logs))))
      3600.
Proof.
  rewrite calculateStats_events, totalDuration_reverse.
  unfold calculateStats. simpl. do 2 f_equal.
  destruct (coherent_run initialState logs coherent_initial) as (Htotal & _ & Hcheck).
  unfold handleOngoing. fold (inDowntime (runLoop initialState logs)).
  destruct (inDowntime (runLoop initialState logs)) eqn:Hd; [|exact Htotal].
  rewrite bool_decide_eq_true_2 by now apply Hcheck.
  simpl. now rewrite totalDuration_snoc, Htotal.
Qed.

(** X2.  The status of the summary is the verdict of the last round, and
    ["online"] when there is no round; the last check is the timestamp of
    the last round. *)
Theorem status_is_last_verdict
    (now : time.Time) (logs : list storage.LogEntry) :
  CurrentStatus (calculateStats now logs) =
    match last logs with
    | Some e => if internetOnline e then "online" else "offline"
    | None => "online"
    end
  /\ TimeSinceLastCheck (calculateStats now logs) = storage.Timestamp <$> last logs.
Proof.
  destruct (handleOngoing_frame now (runLoop initialState logs)) as [Hcur Ht].
  unfold calculateStats. simpl. rewrite Hcur, Ht, runLoop_lastCheckTime.
  split; [|now destruct (last logs)].
  destruct (last logs) as [e|] eqn:Hlast.
  - apply last_Some in Hlast as [logs' ->]. rewrite runLoop_snoc.
    now destruct (processEntry_status (runLoop initialState logs') e) as (_ & _ & _ & _ & ->).
  - apply last_None in Hlast as ->. reflexivity.
Qed.

(** X3.  The summary lists an ongoing event exactly when its status is
    ["offline"]. *)
Theorem ongoing_iff_offline
    (now : time.Time) (logs : list storage.LogEntry) :
  (exists ev, ev ∈ DowntimeEvents (calculateStats now logs) /\ IsOngoing ev = true)
  <-> CurrentStatus (calculateStats now logs) = "offline".
Proof.
  destruct (handleOngoing_frame now (runLoop initialState logs)) as [Hcur _].
  destruct (coherent_run initialState logs coherent_initial) as (_ & Hstatus & Hcheck).
  destruct (runLoop_events_closed initialState logs) as (new & Hnew & Hclosed).
  simpl in Hnew.
  assert (Hstat : CurrentStatus (calculateStats now logs) =
                  if inDowntime (runLoop initialState logs) then "offline" else "online").
  { unfold calculateStats. simpl. now rewrite Hcur. }
  rewrite Hstat, calculateStats_events.
  destruct (inDowntime (runLoop initialState logs)) eqn:Hd.
  - rewrite handleOngoing_open by auto. split; [reflexivity|]. intros _.
    exists (ongoingEvent now (runLoop initialState logs)).
    split; [|reflexivity]. apply elem_of_reverse, elem_of_app. right. now left.
  - rewrite handleOngoing_idle by exact Hd. split; [|discriminate].
    intros (ev & Hin & Hev). rewrite elem_of_reverse, Hnew in Hin.
    rewrite Forall_forall in Hclosed. destruct (Hclosed ev Hin). congruence.
Qed.

(** X22.  As long as the number of entries fits in an [int], the online
    checks are the number of entries with an online verdict, the offline
    checks the number of entries with an offline verdict, and the total
    the number of entries. *)
Theorem checks_count_verdicts (now : time.Time) (logs : list storage.LogEntry) :
  Z.of_nat (length logs) <= MaxInt ->
  TotalChecks (calculateStats now logs) = Z.of_nat (length logs)
  /\ OnlineChecks (calculateStats now logs) = countVerdict true logs
  /\ OfflineChecks (calculateStats now logs) = countVerdict false logs.
Proof. apply calculateStats_counters. Qed.

Lemma checks_count_verdicts_witness :
  OnlineChecks (calculateStats (sec 500)
    [round (sec 100) [up "A"; down "B"]; round (sec 130) [down "A"; down "B"];
     round (sec 160) []]) = 1
  /\ OfflineChecks (calculateStats (sec 500)
    [round (sec 100) [up "A"; down "B"]; round (sec 130) [down "A"; down "B"];
     round (sec 160) []]) = 2.
Proof.
  destruct (checks_count_verdicts (sec 500)
    [round (sec 100) [up "A"; down "B"]; round (sec 130) [down "A"; down "B"];
     round (sec 160) []]) as (_ & Hon & Hoff).
  - vm_compute. discriminate.
  - rewrite Hon, Hoff. split; reflexivity.
Defined.

(** ** Intervals do not overlap *)

Lemma Sub_range (t u : time.Time) : MinInt64 <= time.Sub t u <= MaxInt64.
Proof.
  unfold time.Sub, time.minDuration, time.maxDuration.
  destruct (Z.ltb_spec (t - u) MinInt64); [unfold MinInt64, MaxInt64; lia|].
  destruct (Z.ltb_spec MaxInt64 (t - u)); [unfold MinInt64, MaxInt64 in *; lia|lia].
Qed.

Lemma Sub_mono (t t' u : time.Time) : t <= t' -> time.Sub t u <= time.Sub t' u.
Proof.
  unfold time.Sub, time.minDuration, time.maxDuration, MinInt64, MaxInt64. intros H.
  repeat match goal with |- context [?a <? ?b] => destruct (Z.ltb_spec a b) end; lia.
Qed.

Lemma durationSeconds_nonneg (t u : time.Time) :
  u <= t -> 0 <= durationSeconds (time.Sub t u).
Proof.
  intros H. pose proof (Sub_range t u) as Hr.
  pose proof (Sub_mono u t u H) as Hm.
  rewrite (Sub_exact u u) in Hm by (unfold MinInt64, MaxInt64; lia).
  pose proof (durationSeconds_whole_seconds _ Hr) as Hd.
  destruct (Z.leb_spec 0 (time.Sub t u)); [|lia].
  pose proof (Z.quot_pos (time.Sub t u) time.Second ltac:(lia) eq_refl). lia.
Qed.

Lemma separated_step (t : time.Time) (st : LoopState) (e : storage.LogEntry) :
  separated t st -> t <= storage.Timestamp e ->
  separated (storage.Timestamp e) (processEntry st e).
Proof.
  intros (Hsorted & Hwf & Hover & Hopen) Hle.
  assert (Hover' : Forall (fun ev => exists te, EndTime ev = Some te
                                     /\ te <= storage.Timestamp e)
                          (downtimeEvents st)).
  { eapply Forall_impl; [exact Hover|]. simpl. intros ev (te & Hte & Hle').
    exists te. split; [exact Hte|lia]. }
  destruct (processEntry_status st e) as (_ & _ & Hd & _).
  unfold separated. rewrite Hd.
  destruct (internetOnline e) eqn:He, (inDowntime st) eqn:Hst; simpl.
  - destruct Hopen as [Hstart Hbefore]; [reflexivity|].
    rewrite processEntry_online_close by assumption.
    split; [|split; [|split; [|discriminate]]].
    + now apply StronglySorted_snoc.
    + apply Forall_app_2; [exact Hwf|]. repeat constructor; simpl; [lia|].
      apply durationSeconds_nonneg. lia.
    + apply Forall_app_2; [exact Hover'|]. repeat constructor.
      exists (storage.Timestamp e). split; [reflexivity|lia].
  - rewrite processEntry_online_idle by assumption.
    repeat split; try assumption; discriminate.
  - destruct (processEntry_offline_extend st e He Hst) as (-> & -> & _).
    destruct Hopen as [Hstart Hbefore]; [reflexivity|].
    repeat split; try assumption. lia.
  - destruct (processEntry_offline_open st e He Hst) as (-> & -> & _).
    repeat split; try assumption. lia.
Qed.

Lemma separated_run (t : time.Time) (st : LoopState) (logs : list storage.LogEntry) :
  separated t st ->
  StronglySorted Z.le (t :: map storage.Timestamp logs) ->
  exists t', separated t' (runLoop st logs).
Proof.
  revert t st. induction logs as [|e logs IH]; intros t st Hst Hsorted.
  - now exists t.
  - rewrite runLoop_cons. simpl in Hsorted.
    apply StronglySorted_inv in Hsorted as [Htail Hhd].
    apply (IH (storage.Timestamp e)); [|exact Htail].
    apply (separated_step t); [exact Hst|]. now inversion Hhd.
Qed.

Lemma separated_initial (t : time.Time) : separated t initialState.
Proof. repeat split; try constructor; discriminate. Qed.

Lemma ascending_separated (logs : list storage.LogEntry) :
  ascending logs -> exists t, separated t (runLoop initialState logs).
Proof.
  intros Hasc%(Sorted_StronglySorted Z.le).
  destruct logs as [|e logs].
  - exists 0. apply separated_initial.
  - apply (separated_run (storage.Timestamp e)).
    + apply separated_initial.
    + simpl in *. constructor; [exact Hasc|].
      apply StronglySorted_inv in Hasc as [_ Hhd].
      constructor; [lia|exact Hhd].
Qed.

Lemma non_overlapping_of_ascending (now : time.Time) (logs : list storage.LogEntry) :
  ascending logs ->
  StronglySorted (flip endsBefore) (DowntimeEvents (calculateStats now logs))
  /\ Forall wellFormed (DowntimeEvents (calculateStats now logs)).
Proof.
  intros Hasc. destruct (ascending_separated logs Hasc) as (t & Hsorted & Hwf & _ & Hopen).
  rewrite calculateStats_events. unfold handleOngoing.
  fold (inDowntime (runLoop initialState logs)).
  destruct (inDowntime (runLoop initialState logs)); simpl.
  - destruct Hopen as [_ Hbefore]; [reflexivity|].
    destruct (bool_decide _); simpl.
    + split.
      * apply StronglySorted_reverse, StronglySorted_snoc; assumption.
      * apply Forall_reverse, Forall_app_2; [exact Hwf|]. now repeat constructor.
    + split; [now apply StronglySorted_reverse|now apply Forall_reverse].
  - split; [now apply StronglySorted_reverse|now apply Forall_reverse].
Qed.

Lemma mostRecentFirst_of_ascending (now : time.Time) (logs : list storage.LogEntry) :
  ascending logs -> mostRecentFirst (DowntimeEvents (calculateStats now logs)).
Proof.
  intros Hasc. destruct (ascending_chronological logs Hasc) as [t Ht].
  rewrite calculateStats_events. apply StronglySorted_reverse.
  now apply (handleOngoing_sorted now t).
Qed.

(** X4.  For rounds in ascending order of timestamp the events of the
    summary do not overlap: each event is over (has an end, no later than
    the start of the other) when a more recent one begins; and a closed
    event ends no earlier than it starts and has a duration that is not
    negative. *)
Theorem events_do_not_overlap
    (now : time.Time) (logs : list storage.LogEntry) :
  ascending logs ->
  StronglySorted (flip endsBefore) (DowntimeEvents (calculateStats now logs))
  /\ Forall wellFormed (DowntimeEvents (calculateStats now logs)).
Proof. apply non_overlapping_of_ascending. Qed.

Lemma events_do_not_overlap_witness :
  StronglySorted (flip endsBefore)
    (DowntimeEvents
       (calculateStats (sec 500)
          [round (sec 100) [down "A"]; round (sec 130) [up "A"];
           round (sec 160) [down "A"]])).
Proof.
  apply (events_do_not_overlap (sec 500)
           [round (sec 100) [down "A"]; round (sec 130) [up "A"];
            round (sec 160) [down "A"]]).
  repeat constructor; vm_compute; discriminate.
Defined.

(** ** Number of events *)

Lemma length_events_from (now : time.Time) (st : LoopState) (logs : list storage.LogEntry) :
  coherent st ->
  length (downtimeEvents (handleOngoing now (runLoop st logs))) =
    (length (downtimeEvents st) + (if inDowntime st then 1 else 0)
     + offlineRuns (negb (inDowntime st)) logs)%nat.
Proof.
  revert st. induction logs as [|e logs IH]; intros st Hst.
  - simpl. destruct Hst as (_ & _ & Hcheck). destruct (inDowntime st) eqn:Hd.
    + rewrite handleOngoing_open by auto. rewrite length_app. simpl. lia.
    + rewrite handleOngoing_idle by exact Hd. lia.
  - rewrite runLoop_cons, IH by now apply coherent_step.
    destruct (processEntry_status st e) as (_ & _ & -> & _).
    simpl offlineRuns.
    destruct (internetOnline e) eqn:He, (inDowntime st) eqn:Hd; simpl.
    + rewrite processEntry_online_close by assumption. rewrite length_app. simpl. lia.
    + rewrite processEntry_online_idle by assumption. lia.
    + destruct (processEntry_offline_extend st e He Hd) as (-> & _). lia.
    + destruct (processEntry_offline_open st e He Hd) as (-> & _). lia.
Qed.

(** X5.  The summary lists one event for each maximal run of offline
    rounds of the input. *)
Theorem one_event_per_offline_run
    (now : time.Time) (logs : list storage.LogEntry) :
  length (DowntimeEvents (calculateStats now logs)) = offlineRuns true logs.
Proof.
  rewrite calculateStats_events, length_reverse.
  now rewrite length_events_from by apply coherent_initial.
Qed.

(** ** The ongoing downtime grows with [now] *)

Lemma to_int64_mono (x y : Q) :
  (x <= y)%Q -> float64.to_int64 x <= float64.to_int64 y.
Proof.
  intros Hxy.
  destruct (Qlt_le_dec x 0) as [Hx|Hx], (Qlt_le_dec y 0) as [Hy|Hy].
  - assert (Hb : float64.to_int64 x <= Qceiling x /\ Qceiling y <= float64.to_int64 y).
    { split.
      - apply (to_int64_between (Qfloor x) (Qceiling x)).
        split; [apply Qfloor_le|apply Qle_ceiling].
      - destruct y as [n d]. unfold Qceiling, Qfloor, Qopp, float64.to_int64. simpl.
        unfold Qlt in Hy. simpl in Hy.
        rewrite <- (Z.opp_involutive n) at 2. rewrite Z.quot_opp_l by lia.
        rewrite Z.quot_div_nonneg by lia. lia. }
    pose proof (Qceiling_resp_le x y Hxy). lia.
  - assert (float64.to_int64 x <= 0).
    { apply (to_int64_between (Qfloor x) 0). split; [apply Qfloor_le|].
      change (inject_Z 0) with 0%Q. lra. }
    assert (0 <= float64.to_int64 y).
    { apply (to_int64_between 0 (Qceiling y)). split; [|apply Qle_ceiling].
      change (inject_Z 0) with 0%Q. lra. }
    lia.
  - lra.
  - assert (Hb : float64.to_int64 x <= Qfloor x /\ Qfloor y <= float64.to_int64 y).
    { split.
      - destruct x as [n d]. unfold Qfloor, float64.to_int64. simpl.
        unfold Qle in Hx. simpl in Hx. rewrite Z.quot_div_nonneg by lia. lia.
      - apply (to_int64_between (Qfloor y) (Qceiling y)).
        split; [apply Qfloor_le|apply Qle_ceiling]. }
    pose proof (Qfloor_resp_le x y Hxy). lia.
Qed.

Lemma Seconds_mono (d d' : time.Duration) :
  MinInt64 <= d -> d <= d' -> d' <= MaxInt64 ->
  (time.Seconds d <= time.Seconds d')%Q.
Proof.
  intros Hlo Hle Hhi.
  pose proof (Z.quot_le_mono d d' time.Second eq_refl Hle) as Hq.
  destruct (Z.eq_dec (Z.quot d time.Second) (Z.quot d' time.Second)) as [Heq|Hne].
  - unfold time.Seconds, float64.add, float64.div, float64.of_int.
    pose proof (Z.quot_rem' d time.Second). pose proof (Z.quot_rem' d' time.Second).
    assert (Hr : Z.rem d time.Second <= Z.rem d' time.Second) by lia.
    rewrite Heq. apply round_mono.
    apply Qplus_le_r. apply round_mono.
    apply Qmult_le_compat_r; [|discriminate].
    apply round_mono. now rewrite <- Zle_Qle.
  - pose proof (Seconds_between d ltac:(lia)) as [_ Hup].
    pose proof (Seconds_between d' ltac:(lia)) as [Hlow _].
    eapply Qle_trans; [exact Hup|]. eapply Qle_trans; [|exact Hlow].
    rewrite <- Zle_Qle.
    destruct (Z.leb_spec 0 d), (Z.leb_spec 0 d'); lia.
Qed.

Lemma durationSeconds_mono (d d' : time.Duration) :
  MinInt64 <= d -> d <= d' -> d' <= MaxInt64 ->
  durationSeconds d <= durationSeconds d'.
Proof. intros. now apply to_int64_mono, Seconds_mono. Qed.

Lemma grownTo_refl (ev : DowntimeEvent) : grownTo ev ev.
Proof. repeat split; lia. Qed.

(** X6.  Between two queries over the same rounds, the second at a later
    [now], the counters, the status, the uptime percentage and the last
    check are the same, and so are the events, except that the duration
    of the ongoing event may have grown; it never shrinks. *)
Theorem later_query_grows_ongoing_downtime
    (now now' : time.Time) (logs : list storage.LogEntry) :
  now <= now' ->
  Forall2 grownTo (DowntimeEvents (calculateStats now logs))
                  (DowntimeEvents (calculateStats now' logs))
  /\ CurrentStatus (calculateStats now logs) = CurrentStatus (calculateStats now' logs)
  /\ TotalChecks (calculateStats now logs) = TotalChecks (calculateStats now' logs)
  /\ OnlineChecks (calculateStats now logs) = OnlineChecks (calculateStats now' logs)
  /\ OfflineChecks (calculateStats now logs) = OfflineChecks (calculateStats now' logs)
  /\ UptimePercentage (calculateStats now logs) = UptimePercentage (calculateStats now' logs)
  /\ TimeSinceLastCheck (calculateStats now logs) =
     TimeSinceLastCheck (calculateStats now' logs).
Proof.
  intros Hnow.
  destruct (handleOngoing_frame now (runLoop initialState logs)) as [Hcur Ht].
  destruct (handleOngoing_frame now' (runLoop initialState logs)) as [Hcur' Ht'].
  destruct (handleOngoing_counters now (runLoop initialState logs)) as [Hon Hoff].
  destruct (handleOngoing_counters now' (runLoop initialState logs)) as [Hon' Hoff'].
  split.
  - rewrite !calculateStats_events. apply Forall2_reverse. unfold handleOngoing.
    destruct (_ && _); simpl.
    + apply Forall2_app; [apply Forall_Forall2_diag, Forall_forall; intros; apply grownTo_refl|].
      constructor; [|constructor]. repeat split; simpl; try discriminate.
      unfold time.Since. apply durationSeconds_mono;
        [apply Sub_range|now apply Sub_mono|apply Sub_range].
    + apply Forall_Forall2_diag, Forall_forall. intros. apply grownTo_refl.
  - unfold calculateStats. simpl. rewrite Hcur, Hcur', Ht, Ht', Hon, Hon', Hoff, Hoff'.
    repeat split.
Qed.

Lemma later_query_grows_ongoing_downtime_witness :
  Forall2 grownTo
    (DowntimeEvents (calculateStats (sec 500) [round (sec 100) [down "A"]]))
    (DowntimeEvents (calculateStats (sec 530) [round (sec 100) [down "A"]])).
Proof.
  apply (later_query_grows_ongoing_downtime (sec 500) (sec 530)
           [round (sec 100) [down "A"]]).
  vm_compute. discriminate.
Defined.

(** * Reading the logs back: [ReadLogs] and the handlers *)

Lemma readValue_filter (startTime endTime : option time.Time)
      (values : list (option storage.LogEntry)) (acc : list storage.LogEntry) :
  fold_left (readValue startTime endTime) values acc =
    acc ++ filter (fun e => inWindow startTime endTime (storage.Timestamp e))
                  (omap id values).
Proof.
  revert acc. induction values as [|[entry|] values IH]; intros acc; simpl.
  - now rewrite app_nil_r.
  - rewrite IH, filter_cons. unfold readValue, inWindow, time.Before, time.After.
    destruct startTime as [start|], endTime as [end_|];
      repeat match goal with |- context [?a <? ?b] => destruct (Z.ltb_spec a b) end;
      destruct (decide _) as [[? ?]|Hn]; try lia; try (exfalso; apply Hn; split; lia || exact I);
      now rewrite <- ?app_assoc.
  - apply IH.
Qed.

Lemma readFile_filter (startTime endTime : option time.Time)
      (files : list LogFile) (acc : list storage.LogEntry) :
  fold_left (readFile startTime endTime) files acc =
    acc ++ filter (fun e => inWindow startTime endTime (storage.Timestamp e))
                  (storedEntries files).
Proof.
  revert acc. induction files as [|[values|] files IH]; intros acc; simpl.
  - now rewrite app_nil_r.
  - unfold storedEntries in *. rewrite IH, readValue_filter. simpl.
    now rewrite filter_app, app_assoc.
  - apply IH.
Qed.


Lemma ascending_filter (P : storage.LogEntry -> Prop) `{!forall e, Decision (P e)}
      (logs : list storage.LogEntry) :
  ascending logs -> ascending (filter P logs).
Proof.
  unfold ascending. intros Hs%(Sorted_StronglySorted Z.le).
  apply StronglySorted_Sorted.
  induction logs as [|e logs IH]; [constructor|].
  simpl in Hs. apply StronglySorted_inv in Hs as [Htail Hhd].
  rewrite filter_cons. destruct (decide (P e)); [|now apply IH].
  simpl. constructor; [now apply IH|].
  rewrite List.Forall_forall in Hhd. apply List.Forall_forall.
  intros t Ht. apply Hhd.
  apply in_map_iff in Ht as (e' & <- & He'). apply in_map.
  apply list_elem_of_In in He'. apply list_elem_of_filter in He' as [_ He'].
  now apply list_elem_of_In.
Qed.





(** * Configuration: [getHosts] and [getPingInterval] *)

Lemma Split_length (s : string) (sep : Ascii.ascii) :
  length (Split s sep) = S (countByte sep s).
Proof.
  induction s as [|c s IH]; [reflexivity|]. simpl.
  destruct (Ascii.eqb c sep); simpl; [now rewrite IH|].
  destruct (Split s sep); simpl in *; lia.
Qed.

(** X10.  [getHosts] never returns an empty list of hosts.  When
    [MONITOR_HOSTS] is set it returns one host for each piece between the
    commas of its value, one more than there are commas, also for pieces
    that are empty. *)
Theorem getHosts_never_empty
    (Getenv : string -> string) (TrimSpace : string -> string) :
  getHosts Getenv TrimSpace <> []
  /\ (Getenv "MONITOR_HOSTS" <> "" ->
      length (getHosts Getenv TrimSpace) = S (countByte ","%char (Getenv "MONITOR_HOSTS"))).
Proof.
  unfold getHosts. destruct (decide _) as [Hset|Hunset].
  - assert (Hlen : length (map TrimSpace (Split (Getenv "MONITOR_HOSTS") ","%char))
                   = S (countByte ","%char (Getenv "MONITOR_HOSTS")))
      by now rewrite length_map, Split_length.
    split; [|intros _; exact Hlen].
    intros Hnil. rewrite Hnil in Hlen. discriminate.
  - split; [discriminate|]. intros Hset. contradiction.
Qed.

(** X11.  [getPingInterval] is the default of 30 seconds unless
    [MONITOR_INTERVAL] is set and parses to a positive number of seconds;
    then it is that number of seconds, and positive, as long as the
    number is at most 9223372036.  Beyond that the multiplication by
    [time.Second] wraps around in [int64]. *)
Theorem getPingInterval_positive
    (Getenv : string -> string) (Atoi : string -> option Z) :
  (forall n, Atoi (Getenv "MONITOR_INTERVAL") = Some n -> n <= 9223372036) ->
  0 < getPingInterval Getenv Atoi
  /\ getPingInterval Getenv Atoi =
       match Atoi (Getenv "MONITOR_INTERVAL") with
       | Some n =>
           if decide (Getenv "MONITOR_INTERVAL" <> "" /\ 0 < n)
           then n * time.Second else 30 * time.Second
       | None => 30 * time.Second
       end.
Proof.
  intros Hbound. unfold getPingInterval.
  assert (Hdefault : int64_wrap (30 * time.Second) = 30 * time.Second) by reflexivity.
  rewrite Hdefault.
  destruct (Atoi (Getenv "MONITOR_INTERVAL")) as [n|] eqn:Hn.
  - specialize (Hbound n eq_refl).
    destruct (decide (Getenv "MONITOR_INTERVAL" <> "")) as [Hset|Hunset].
    + destruct (Z.ltb_spec 0 n) as [Hpos|Hneg].
      * assert (Hw : int64_wrap (n * time.Second) = n * time.Second).
        { unfold int64_wrap, time.Second. rewrite Z.mod_small by lia. lia. }
        rewrite Hw. split; [unfold time.Second; lia|].
        destruct (decide _) as [_|Hc]; [reflexivity|]. exfalso. apply Hc. now split.
      * split; [reflexivity|]. destruct (decide _) as [[_ Hc]|_]; [lia|reflexivity].
    + split; [reflexivity|]. destruct (decide _) as [[Hc _]|_]; [contradiction|reflexivity].
  - split; [now destruct (decide _)|now destruct (decide _)].
Qed.

Lemma getPingInterval_positive_witness :
  getPingInterval (fun _ => "45") (fun _ => Some 45) = 45 * time.Second.
Proof.
  destruct (getPingInterval_positive (fun _ => "45") (fun _ => Some 45)) as [_ H].
  - intros n [= <-]. lia.
  - rewrite H. reflexivity.
Defined.

(** The bound of X11 is sharp: one second more and the interval is
    negative. *)
Example getPingInterval_wraps :
  getPingInterval (fun _ => "9223372037") (fun _ => Some 9223372037)
  = -9223372036709551616.
Proof. reflexivity. Qed.

(** * The probe: [Ping] and [PingAll] *)

(** X12.  [Ping] succeeds exactly when the lookup gives an address without
    error and a connection is made within ten seconds, to port 443 or,
    port 443 being refused, to port 80.  A successful result has no
    error text and a latency of at most 10000 milliseconds. *)
Theorem Ping_success (host : string) (obs : Observation) :
  (monitor.Success (Ping host obs) = true <->
     snd (obsLookup obs) = None /\ fst (obsLookup obs) <> []
     /\ ((obsDial obs "443" = None /\ obsDialMs obs "443" <= maxAcceptableLatency)
         \/ (obsDial obs "443" <> None /\ obsDial obs "80" = None
             /\ obsDialMs obs "80" <= maxAcceptableLatency)))
  /\ (monitor.Success (Ping host obs) = true ->
      monitor.Error (Ping host obs) = ""
      /\ monitor.Latency (Ping host obs) <= maxAcceptableLatency).
Proof.
  unfold Ping. destruct (obsLookup obs) as [addrs [err|]]; simpl.
  - split; [|discriminate]. split; [discriminate|]. now intros [? _].
  - destruct addrs as [|addr addrs]; simpl.
    + split; [|discriminate]. split; [discriminate|]. now intros (_ & ? & _).
    + destruct (obsDial obs "443") as [err443|]; simpl.
      * destruct (obsDial obs "80") as [err80|]; simpl.
        -- split; [|discriminate]. split; [discriminate|].
           intros (_ & _ & [[? _]|(_ & ? & _)]); discriminate.
        -- destruct (Z.ltb_spec maxAcceptableLatency (obsDialMs obs "80")); simpl.
           ++ split; [|discriminate]. split; [discriminate|].
              intros (_ & _ & [[? _]|(_ & _ & ?)]); [discriminate|lia].
           ++ split; [|now split]. split; [|reflexivity]. intros _.
              repeat split; [discriminate|]. right. repeat split; [discriminate|lia].
      * destruct (Z.ltb_spec maxAcceptableLatency (obsDialMs obs "443")); simpl.
        -- split; [|discriminate]. split; [discriminate|].
           intros (_ & _ & [[_ ?]|(? & _)]); [lia|contradiction].
        -- split; [|now split]. split; [|reflexivity]. intros _.
           repeat split; [discriminate|]. left. split; [reflexivity|lia].
Qed.

(** X13.  Port 80 is a fallback only.  When the lookup fails or gives no
    address, or when port 443 accepts the connection, however slowly, the
    result of [Ping] does not depend on port 80; a connection to port 443
    slower than ten seconds fails the probe with that latency. *)
Theorem Ping_port_80_is_fallback (host : string) (obs obs' : Observation) :
  sameUntilPort80 obs obs' ->
  snd (obsLookup obs) <> None \/ fst (obsLookup obs) = [] \/ obsDial obs "443" = None ->
  Ping host obs = Ping host obs'
  /\ (snd (obsLookup obs) = None -> fst (obsLookup obs) <> [] ->
      maxAcceptableLatency < obsDialMs obs "443" ->
      monitor.Success (Ping host obs) = false
      /\ monitor.Latency (Ping host obs) = obsDialMs obs "443").
Proof.
  intros (Hstart & Hlookup & Hms & Hdial & Hdialms) Hearly.
  unfold Ping. rewrite <- Hlookup, <- Hstart, <- Hms.
  destruct (obsLookup obs) as [addrs [err|]]; simpl in *.
  - split; [reflexivity|]. discriminate.
  - destruct addrs as [|addr addrs]; simpl.
    + split; [reflexivity|]. contradiction.
    + destruct Hearly as [?|[?|H443]]; [contradiction|discriminate|].
      rewrite <- Hdial, <- Hdialms, H443. split; [reflexivity|].
      intros _ _ Hslow. destruct (Z.ltb_spec maxAcceptableLatency (obsDialMs obs "443"));
        [now split|lia].
Qed.

Lemma Ping_port_80_is_fallback_witness :
  Ping "example.org"
    {| obsStart := sec 100; obsLookup := (["93.184.216.34"], None);
       obsLookupMs := 20; obsDial := fun _ => None;
       obsDialMs := fun port => if decide (port = "443") then 10500 else 40;
       obsFinalMs := 0 |}
  = Ping "example.org"
    {| obsStart := sec 100; obsLookup := (["93.184.216.34"], None);
       obsLookupMs := 20;
       obsDial := fun port => if decide (port = "443") then None else Some "refused";
       obsDialMs := fun port => if decide (port = "443") then 10500 else 7;
       obsFinalMs := 11000 |}.
Proof.
  apply Ping_port_80_is_fallback.
  - repeat split.
  - right. right. reflexivity.
Defined.

Lemma Ping_Host (host : string) (obs : Observation) :
  monitor.Host (Ping host obs) = host.
Proof.
  unfold Ping. destruct (obsLookup obs) as [addrs [err|]]; [reflexivity|].
  destruct addrs; [reflexivity|]. simpl.
  destruct (obsDial obs "443"); [|now destruct (_ <? _)].
  destruct (obsDial obs "80"); [reflexivity|now destruct (_ <? _)].
Qed.

(** The loop of [PingAll] from any state: what it has gathered after the
    hosts [hosts]. *)
Lemma pingNext_run (obs : nat -> Observation) (hosts : list string) (st : PingAllState) :
  paResults (fold_left (pingNext obs) hosts st) =
    paResults st ++ imap (fun i host => Ping host (obs (length (paResults st) + i)%nat)) hosts
  /\ length (paLines (fold_left (pingNext obs) hosts st)) =
     (length (paLines st) + length hosts)%nat.
Proof.
  revert st. induction hosts as [|host hosts IH]; intros st; simpl.
  - now rewrite app_nil_r, Nat.add_0_r.
  - destruct (IH (pingNext obs st host)) as [-> ->]. simpl.
    rewrite !length_app. simpl. rewrite <- app_assoc. simpl.
    rewrite Nat.add_0_r. split; [|lia]. do 2 f_equal.
    apply imap_ext. intros i h _. simpl. do 2 f_equal. lia.
Qed.

(** X14.  [PingAll] returns one result for each configured host, in the
    order of the hosts: the result of the call of [Ping] for that host,
    carrying the host's name; and it prints one line for each. *)
Theorem PingAll_one_result_per_host (hosts : list string) (obs : nat -> Observation) :
  (PingAll hosts obs).1.1 = imap (fun i host => Ping host (obs i)) hosts
  /\ monitor.Host <$> (PingAll hosts obs).1.1 = hosts
  /\ length (PingAll hosts obs).1.2 = length hosts.
Proof.
  unfold PingAll. simpl.
  destruct (pingNext_run obs hosts {| paResults := []; paSuccessCount := 0; paLines := [] |})
    as [Hres Hlines].
  simpl in *. rewrite Hres, Hlines. repeat split.
  clear. generalize obs. induction hosts as [|host hosts IH]; intros obs'; [reflexivity|].
  rewrite imap_cons. simpl. rewrite Ping_Host. f_equal. apply IH.
Qed.

Lemma countSuccess_snoc (results : list monitor.PingResult) (r : monitor.PingResult) :
  countSuccess (results ++ [r]) =
    countSuccess results + (if monitor.Success r then 1 else 0).
Proof.
  unfold countSuccess. rewrite List.filter_app, length_app. simpl.
  destruct (monitor.Success r); simpl; lia.
Qed.

Lemma countSuccess_bound (results : list monitor.PingResult) :
  0 <= countSuccess results <= Z.of_nat (length results).
Proof.
  unfold countSuccess. pose proof (List.filter_length_le monitor.Success results). lia.
Qed.

Lemma countSuccess_zero (results : list monitor.PingResult) :
  countSuccess results = 0 <-> existsb monitor.Success results = false.
Proof.
  unfold countSuccess. induction results as [|r results IH]; simpl; [tauto|].
  destruct (monitor.Success r); simpl; [split; [lia|discriminate]|exact IH].
Qed.

Lemma pingNext_count (obs : nat -> Observation) (hosts : list string) (st : PingAllState) :
  paSuccessCount st = countSuccess (paResults st) ->
  Z.of_nat (length (paResults st)) + Z.of_nat (length hosts) <= MaxInt ->
  paSuccessCount (fold_left (pingNext obs) hosts st) =
    countSuccess (paResults (fold_left (pingNext obs) hosts st)).
Proof.
  revert st. induction hosts as [|host hosts IH]; intros st Hst Hlen; [exact Hst|].
  simpl. apply IH.
  - simpl. rewrite countSuccess_snoc, Hst.
    pose proof (countSuccess_bound (paResults st)).
    destruct (monitor.Success _); [|lia].
    apply int_wrap_id. simpl length in Hlen. unfold MinInt64. lia.
  - simpl. rewrite length_app. simpl length in *. lia.
Qed.

(** X15.  [PingAll] prints the banner "INTERNET: OFFLINE" exactly when
    [calculateStats] will count the round it returns as offline: when no
    result succeeded, which includes the round of no host at all. *)
Theorem PingAll_banner_is_the_offline_verdict
    (hosts : list string) (obs : nat -> Observation) (now : time.Time) :
  Z.of_nat (length hosts) <= MaxInt ->
  (PingAll hosts obs).2 = negb (internetOnline (savedEntry now (PingAll hosts obs).1.1)).
Proof.
  intros Hlen. rewrite internetOnline_existsb. unfold PingAll, savedEntry. simpl.
  rewrite pingNext_count by (simpl; try reflexivity; lia).
  destruct (existsb _ _) eqn:Hex; simpl.
  - apply Z.eqb_neq. intros Hz%countSuccess_zero. congruence.
  - apply Z.eqb_eq. now apply countSuccess_zero.
Qed.

Lemma PingAll_banner_is_the_offline_verdict_witness :
  (PingAll ["a.example"; "b.example"]
     (fun _ => {| obsStart := sec 100; obsLookup := ([], Some "no such host");
                  obsLookupMs := 3; obsDial := fun _ => None;
                  obsDialMs := fun _ => 0; obsFinalMs := 0 |})).2 = true.
Proof.
  rewrite (PingAll_banner_is_the_offline_verdict _ _ (sec 100)).
  - reflexivity.
  - vm_compute. discriminate.
Defined.

Lemma getHosts_not_nil (Getenv : string -> string) (TrimSpace : string -> string) :
  getHosts Getenv TrimSpace <> [].
Proof.
  unfold getHosts. destruct (decide _); [|discriminate].
  intros Hnil%(f_equal length). rewrite length_map, Split_length in Hnil. discriminate.
Qed.

(** X16.  The entry saved for a round of the monitor is never without
    results: there is one result for each host of [getHosts], which
    returns at least one host.  The rounds that [calculateStats] counts
    as offline for want of any result are not rounds the monitor
    writes. *)
Theorem monitor_rounds_have_results
    (Getenv : string -> string) (TrimSpace : string -> string)
    (obs : nat -> Observation) (now : time.Time) :
  storage.Results
    (savedEntry now (PingAll (getHosts Getenv TrimSpace) obs).1.1) <> []
  /\ length (storage.Results
               (savedEntry now (PingAll (getHosts Getenv TrimSpace) obs).1.1))
     = length (getHosts Getenv TrimSpace).
Proof.
  pose proof (getHosts_not_nil Getenv TrimSpace) as Hhosts.
  destruct (pingNext_run obs (getHosts Getenv TrimSpace)
              {| paResults := []; paSuccessCount := 0; paLines := [] |}) as [Hres _].
  unfold PingAll, savedEntry. simpl in *. rewrite Hres, length_imap.
  split; [|reflexivity].
  intros Hnil%(f_equal length). rewrite length_imap in Hnil.
  destruct (getHosts Getenv TrimSpace); [contradiction|discriminate].
Qed.

Lemma String_length_append (s1 s2 : string) :
  String.length (s1 +:+ s2) = (String.length s1 + String.length s2)%nat.
Proof. induction s1 as [|c s1 IH]; simpl; [reflexivity|now rewrite IH]. Qed.

Lemma String_length_prefix (n : nat) (s : string) :
  (n <= String.length s)%nat -> String.length (String.substring 0 n s) = n.
Proof.
  revert s. induction n as [|n IH]; intros s Hn.
  - now destruct s.
  - destruct s as [|c s]; simpl in *; [lia|]. rewrite IH by lia. reflexivity.
Qed.

(** X17.  The error text that [PingAll] prints after a result is at most
    61 bytes long.  The bracketed error is printed whole up to 60 bytes;
    a longer one is cut to its first 57 bytes and closed with "...]",
    which makes 61. *)
Theorem errorMsg_at_most_61_bytes (result : monitor.PingResult) :
  (String.length (errorMsgOf result) <= 61)%nat
  /\ (monitor.Success result = false ->
      (57 < String.length (monitor.Error result))%nat ->
      String.length (errorMsgOf result) = 61%nat)
  /\ (monitor.Success result = false -> monitor.Error result <> "" ->
      (String.length (monitor.Error result) <= 57)%nat ->
      errorMsgOf result = " [" +:+ monitor.Error result +:+ "]").
Proof.
  unfold errorMsgOf. destruct (monitor.Success result); [repeat split; simpl; try lia; discriminate|].
  destruct (decide (monitor.Error result <> "")) as [Hne|He].
  - assert (Hlen : String.length (" [" +:+ monitor.Error result +:+ "]")
                   = (String.length (monitor.Error result) + 3)%nat).
    { rewrite !String_length_append. simpl. lia. }
    cbv zeta. destruct (Nat.ltb_spec 60 (String.length (" [" +:+ monitor.Error result +:+ "]")))
      as [Hlong|Hshort].
    + rewrite String_length_append, String_length_prefix by lia. simpl.
      repeat split; try lia.
    + repeat split; try lia.
  - apply dec_stable in He. rewrite He. simpl. repeat split; try lia; contradiction.
Qed.

(** * The statistics for each host: [calculateStats] of part_001 *)

Module perhost_facts.

Import perhost.

Lemma calculateStats_flat (logs : list storage.LogEntry) (st : LoopState) :
  fold_left processEntry logs st = fold_left processResult (allResults logs) st.
Proof.
  revert st. induction logs as [|e logs IH]; intros st; [reflexivity|].
  unfold allResults in *. simpl. rewrite fold_left_app. apply IH.
Qed.

Lemma resultsOf_snoc (host : string) (results : list monitor.PingResult)
      (r : monitor.PingResult) :
  resultsOf host (results ++ [r]) =
    if decide (monitor.Host r = host) then resultsOf host results ++ [r]
    else resultsOf host results.
Proof.
  unfold resultsOf. rewrite filter_app, filter_cons, filter_nil.
  destruct (decide _); [reflexivity|apply app_nil_r].
Qed.

Lemma length_resultsOf (host : string) (results : list monitor.PingResult) :
  (length (resultsOf host results) <= length results)%nat.
Proof. apply length_filter. Qed.

Lemma counted_step (st : LoopState) (results : list monitor.PingResult)
      (r : monitor.PingResult) :
  counted st results -> Z.of_nat (length results) < MaxInt ->
  counted (processResult st r) (results ++ [r]).
Proof.
  intros Hst Hlen host. rewrite resultsOf_snoc.
  specialize (Hst host). pose proof (length_resultsOf host results) as Hle.
  pose proof (countSuccess_bound (resultsOf host results)) as Hcs.
  destruct (decide (monitor.Host r = host)) as [<-|Hne].
  - assert (Hold : let stat := default zeroHostStat (hostStats st !! monitor.Host r) in
                   TotalPings stat = Z.of_nat (length (resultsOf (monitor.Host r) results))
                   /\ SuccessCount stat = countSuccess (resultsOf (monitor.Host r) results)
                   /\ FailureCount stat =
                        Z.of_nat (length (resultsOf (monitor.Host r) results))
                        - countSuccess (resultsOf (monitor.Host r) results)).
    { destruct (hostStats st !! monitor.Host r) as [stat|]; simpl.
      - destruct Hst as (_ & ? & ? & ? & _). auto.
      - rewrite Hst. repeat split. }
    cbv zeta in Hold. destruct Hold as (Htotal & Hsucc & Hfail).
    assert (Hwrap : forall z, 0 <= z <= Z.of_nat (length results) + 1 -> int_wrap z = z).
    { intros z Hz. apply int_wrap_id. unfold MinInt64. lia. }
    unfold processResult.
    destruct (monitor.Success r) eqn:Hr; simpl; rewrite lookup_insert_eq;
      unfold countsResults, successRate; simpl;
      rewrite countSuccess_snoc, length_app, Hr, Htotal, ?Hsucc, ?Hfail; simpl length;
      rewrite !Hwrap by lia;
      (destruct (Z.ltb_spec 0 (Z.of_nat (length (resultsOf (monitor.Host r) results)) + 1));
       [|lia]);
      (repeat split; [now destruct (resultsOf (monitor.Host r) results)|lia..| ]);
      do 3 f_equal; lia.
  - unfold processResult.
    destruct (monitor.Success r); simpl; rewrite lookup_insert_ne by exact Hne; exact Hst.
Qed.

Lemma counted_run (results more : list monitor.PingResult) (st : LoopState) :
  counted st results ->
  Z.of_nat (length (results ++ more)) <= MaxInt ->
  counted (fold_left processResult more st) (results ++ more).
Proof.
  revert results st. induction more as [|r more IH]; intros results st Hst Hlen.
  - now rewrite app_nil_r.
  - simpl. replace (results ++ r :: more) with ((results ++ [r]) ++ more) in *
      by now rewrite <- app_assoc.
    apply IH; [|exact Hlen]. apply counted_step; [exact Hst|].
    rewrite !length_app in Hlen. simpl in Hlen. lia.
Qed.

(** X18.  As long as the number of results fits in an [int], the summary
    has statistics exactly for the hosts that have a result in the logs,
    and for each of them the pings are the number of its results, the
    successes and the failures are the numbers of its successful and of
    its failing results, and the success rate is their quotient in
    percent, between 0 and 100. *)
Theorem host_counters (logs : list storage.LogEntry) (host : string) :
  Z.of_nat (length (allResults logs)) <= MaxInt ->
  match HostStats (calculateStats logs) !! host with
  | None => resultsOf host (allResults logs) = []
  | Some stat =>
      countsResults stat (resultsOf host (allResults logs))
      /\ TotalPings stat = SuccessCount stat + FailureCount stat
      /\ (0 <= SuccessRate stat <= 100)%Q
  end.
Proof.
  intros Hlen. unfold calculateStats. simpl. rewrite calculateStats_flat.
  assert (Hinit : counted initialState []) by (intros h; reflexivity).
  pose proof (counted_run [] (allResults logs) initialState Hinit Hlen host) as H.
  simpl in H. destruct (hostStats _ !! host) as [stat|]; [|exact H].
  split; [exact H|]. destruct H as (Hne & Htotal & Hsucc & Hfail & Hrate).
  split; [lia|]. rewrite Hrate.
  pose proof (countSuccess_bound (resultsOf host (allResults logs))).
  apply percentage_bounds; [lia|].
  destruct (resultsOf host (allResults logs)); [contradiction|simpl; lia].
Qed.

Lemma host_counters_witness :
  match HostStats (calculateStats
                     [round (sec 100) [up "A"; down "B"];
                      round (sec 130) [down "A"; down "B"]]) !! "A" with
  | Some stat => TotalPings stat = 2 /\ SuccessCount stat = 1 /\ FailureCount stat = 1
  | None => False
  end.
Proof.
  pose proof (host_counters
                [round (sec 100) [up "A"; down "B"];
                 round (sec 130) [down "A"; down "B"]] "A") as H.
  destruct (HostStats _ !! "A") as [stat|].
  - destruct H as ((_ & Htotal & Hsucc & Hfail & _) & _); [vm_compute; discriminate|].
    rewrite Htotal, Hsucc, Hfail. repeat split.
  - specialize (H ltac:(vm_compute; discriminate)). vm_compute in H. discriminate H.
Defined.

Lemma isRecovery_more (results more : list monitor.PingResult) (ev : DowntimeEvent) :
  isRecovery results ev -> isRecovery (results ++ more) ev.
Proof.
  intros (i & j & failing & recovered & Hi & Hj & H).
  exists i, j, failing, recovered.
  split; [now apply lookup_app_l_Some|]. split; [now apply lookup_app_l_Some|exact H].
Qed.

Lemma recoveries_step (st : LoopState) (results : list monitor.PingResult)
      (r : monitor.PingResult) :
  recoveries st results -> recoveries (processResult st r) (results ++ [r]).
Proof.
  intros [Hevents Hdown].
  assert (Hevents' : Forall (isRecovery (results ++ [r])) (downtimeEvents st)).
  { eapply Forall_impl; [exact Hevents|]. intros ev. apply isRecovery_more. }
  assert (Hlast : (results ++ [r]) !! length results = Some r).
  { rewrite lookup_app_r by lia. now rewrite Nat.sub_diag. }
  assert (Hkeep : forall host,
             lastState st !! host = Some false ->
             exists i failing,
               (results ++ [r]) !! i = Some failing /\ monitor.Host failing = host
               /\ monitor.Success failing = false
               /\ downtimeStart st !! host = Some (monitor.Timestamp failing)).
  { intros host Hhost. destruct (Hdown host Hhost) as (i & failing & Hi & H).
    exists i, failing. split; [now apply lookup_app_l_Some|exact H]. }
  unfold processResult.
  destruct (monitor.Success r) eqn:Hr; split;
    cbn [hostStats downtimeEvents lastState downtimeStart].
  - destruct (lastState st !! monitor.Host r) as [[|]|] eqn:Hstate; try exact Hevents'.
    apply Forall_app_2; [exact Hevents'|]. constructor; [|constructor].
    destruct (Hdown _ Hstate) as (i & failing & Hi & Hhost & Hfail & Hstart).
    exists i, (length results), failing, r. unfold time.Time in *.
    rewrite Hstart. simpl.
    repeat split; try assumption.
    + now apply lookup_app_l_Some.
    + now apply lookup_lt_Some in Hi.
  - intros host Hhost. destruct (decide (monitor.Host r = host)) as [<-|Hne].
    + rewrite lookup_insert_eq in Hhost. discriminate.
    + rewrite lookup_insert_ne in Hhost by exact Hne. now apply Hkeep.
  - exact Hevents'.
  - intros host Hhost. destruct (decide (monitor.Host r = host)) as [<-|Hne].
    + destruct (lastState st !! monitor.Host r) as [[|]|] eqn:Hstate.
      * exists (length results), r. rewrite lookup_insert_eq. auto.
      * now apply Hkeep.
      * exists (length results), r. rewrite lookup_insert_eq. auto.
    + rewrite lookup_insert_ne in Hhost by exact Hne.
      destruct (Hkeep host Hhost) as (i & failing & Hi & Hh & Hf & Hs).
      exists i, failing. repeat split; try assumption.
      destruct (lastState st !! monitor.Host r) as [[|]|];
        rewrite ?lookup_insert_ne by exact Hne; exact Hs.
Qed.

Lemma recoveries_run (results more : list monitor.PingResult) (st : LoopState) :
  recoveries st results ->
  recoveries (fold_left processResult more st) (results ++ more).
Proof.
  revert results st. induction more as [|r more IH]; intros results st Hst.
  - now rewrite app_nil_r.
  - simpl. replace (results ++ r :: more) with ((results ++ [r]) ++ more)
      by now rewrite <- app_assoc.
    apply IH. now apply recoveries_step.
Qed.

Lemma events_are_recoveries_of (logs : list storage.LogEntry) :
  Forall (isRecovery (allResults logs)) (DowntimeEvents (calculateStats logs)).
Proof.
  unfold calculateStats. simpl. rewrite calculateStats_flat.
  assert (Hinit : recoveries initialState []).
  { split; [constructor|]. intros host H. unfold initialState in H.
    cbn [lastState] in H. now rewrite lookup_empty in H. }
  now destruct (recoveries_run [] (allResults logs) initialState Hinit).
Qed.

(** X19.  Every event that this version lists is a downtime that has
    ended: it starts at the timestamp of a failing result of its host
    and ends at the timestamp of a later successful result of the same
    host, and its duration is the seconds between the two.  A host that
    is still down after the last entry has no event for that downtime,
    and a host without a successful result has none at all. *)
Theorem events_are_recoveries (logs : list storage.LogEntry) :
  Forall (isRecovery (allResults logs)) (DowntimeEvents (calculateStats logs))
  /\ (forall host,
        Forall (fun r => monitor.Success r = false) (resultsOf host (allResults logs)) ->
        Forall (fun ev => Host ev <> host) (DowntimeEvents (calculateStats logs))).
Proof.
  pose proof (events_are_recoveries_of logs) as H. split; [exact H|].
  intros host Hdown. eapply Forall_impl; [exact H|]. simpl.
  intros ev (i & j & failing & recovered & _ & Hj & _ & _ & _ & _ & Hhost & Hup & _) Heq.
  rewrite Forall_forall in Hdown. specialize (Hdown recovered).
  rewrite Hdown in Hup; [discriminate|].
  apply list_elem_of_filter. split; [congruence|].
  apply list_elem_of_lookup. now exists j.
Qed.

Lemma sameButError_step (st : LoopState) (r1 r2 : monitor.PingResult) :
  sameButError r1 r2 -> processResult st r1 = processResult st r2.
Proof.
  intros (Hhost & Hsucc & Hlat & Hts). unfold processResult.
  now rewrite Hhost, Hsucc, Hlat, Hts.
Qed.

(** X20.  This version reads the host, the success, the latency and the
    timestamp of each result, and the number of entries: logs whose
    results differ only in the error text, and whose entries differ only
    in their own timestamp, have the same summary. *)
Theorem stats_read_results_only (logs1 logs2 : list storage.LogEntry) :
  Forall2 sameResults logs1 logs2 ->
  calculateStats logs1 = calculateStats logs2.
Proof.
  intros H. unfold calculateStats. rewrite (Forall2_length _ _ _ H).
  assert (Hrun : forall st, fold_left processEntry logs1 st = fold_left processEntry logs2 st).
  { induction H as [|e1 e2 logs1 logs2 He _ IH]; intros st; [reflexivity|].
    simpl. rewrite <- IH. f_equal. unfold processEntry. clear IH.
    revert st. induction He as [|r1 r2 rs1 rs2 Hr _ IHr]; intros st; [reflexivity|].
    simpl. rewrite (sameButError_step st r1 r2 Hr). apply IHr. }
  now rewrite Hrun.
Qed.

Lemma stats_read_results_only_witness :
  calculateStats [round (sec 100) [down "A"]; round (sec 130) [up "A"]]
  = calculateStats
      [ {| storage.Timestamp := sec 7;
           storage.Results :=
             [ {| monitor.Host := "A"; monitor.Success := false; monitor.Latency := 5000;
                  monitor.Error := "connection refused"; monitor.Timestamp := sec 100 |} ] |};
        round (sec 130) [up "A"] ].
Proof.
  apply stats_read_results_only. repeat constructor.
Defined.

Lemma hostView_other (host : string) (st : LoopState) (r : monitor.PingResult) :
  monitor.Host r <> host -> hostView host (processResult st r) = hostView host st.
Proof.
  intros Hne. unfold hostView, processResult.
  destruct (monitor.Success r); cbn [hostStats downtimeEvents lastState downtimeStart];
    rewrite !lookup_insert_ne by exact Hne.
  - destruct (lastState st !! monitor.Host r) as [[|]|]; try reflexivity.
    rewrite filter_app, filter_cons, filter_nil. cbn [Host].
    destruct (decide _); [contradiction|]. now rewrite app_nil_r.
  - destruct (lastState st !! monitor.Host r) as [[|]|];
      rewrite ?lookup_insert_ne by exact Hne; reflexivity.
Qed.

Lemma hostView_same (st1 st2 : LoopState) (r : monitor.PingResult) :
  hostView (monitor.Host r) st1 = hostView (monitor.Host r) st2 ->
  hostView (monitor.Host r) (processResult st1 r)
  = hostView (monitor.Host r) (processResult st2 r).
Proof.
  unfold hostView. intros [= Hstats Hlast Hstart Hevents]. unfold processResult.
  destruct (monitor.Success r); cbn [hostStats downtimeEvents lastState downtimeStart];
    rewrite !lookup_insert_eq, <- Hstats, <- Hlast.
  - unfold time.Time in *.
    destruct (lastState st1 !! monitor.Host r) as [[|]|];
      rewrite ?filter_app, ?Hevents, ?Hstart; reflexivity.
  - destruct (lastState st1 !! monitor.Host r) as [[|]|];
      rewrite ?lookup_insert_eq, ?Hevents, ?Hstart; reflexivity.
Qed.

Lemma hostView_run (host : string) (results : list monitor.PingResult)
      (st1 st2 : LoopState) :
  hostView host st1 = hostView host st2 ->
  hostView host (fold_left processResult results st1)
  = hostView host (fold_left processResult (resultsOf host results) st2).
Proof.
  revert st1 st2. induction results as [|r results IH]; intros st1 st2 Hst; [exact Hst|].
  unfold resultsOf in *. rewrite filter_cons. simpl.
  destruct (decide (monitor.Host r = host)) as [<-|Hne].
  - simpl. apply IH. now apply hostView_same.
  - apply IH. now rewrite hostView_other.
Qed.

Lemma allResults_restrict (host : string) (logs : list storage.LogEntry) :
  allResults (restrict host logs) = resultsOf host (allResults logs).
Proof.
  induction logs as [|e logs IH]; [reflexivity|].
  unfold allResults, restrict, resultsOf in *. cbn [map].
  rewrite !bind_cons, filter_app. cbn [storage.Results]. f_equal. exact IH.
Qed.

(** X21.  The hosts do not interfere: the statistics of a host and the
    events of a host are those that the same logs give when the results
    of all the other hosts are taken out. *)
Theorem hosts_do_not_interfere (logs : list storage.LogEntry) (host : string) :
  HostStats (calculateStats logs) !! host
  = HostStats (calculateStats (restrict host logs)) !! host
  /\ filter (fun ev => Host ev = host) (DowntimeEvents (calculateStats logs))
     = DowntimeEvents (calculateStats (restrict host logs)).
Proof.
  pose proof (hostView_run host (allResults logs) initialState initialState eq_refl) as H.
  rewrite <- allResults_restrict, <- !calculateStats_flat in H.
  unfold hostView in H. injection H as Hstats _ _ Hevents.
  split; [exact Hstats|].
  unfold calculateStats. cbn [DowntimeEvents]. rewrite Hevents. clear Hevents Hstats.
  pose proof (events_are_recoveries_of (restrict host logs)) as Hrec.
  unfold calculateStats in Hrec. cbn [DowntimeEvents] in Hrec.
  induction Hrec as [|ev evs Hev _ IH]; [reflexivity|].
  rewrite filter_cons, IH. destruct (decide (Host ev = host)) as [_|Hne]; [reflexivity|].
  exfalso. apply Hne.
  destruct Hev as (i & _ & failing & _ & Hi & _ & _ & <- & _).
  rewrite allResults_restrict in Hi.
  apply list_elem_of_lookup_2, list_elem_of_filter in Hi. tauto.
Qed.

End perhost_facts.

(** * The models, evaluated *)

Example Split_pieces :
  Split "a.example, b.example,,c" "," = ["a.example"; " b.example"; ""; "c"].
Proof. reflexivity. Qed.

(** A connection to port 443 that takes 10.5 seconds: the probe fails
    though port 80 would have answered in 40 milliseconds. *)
Example Ping_too_slow :
  Ping "example.org"
    {| obsStart := sec 100; obsLookup := (["93.184.216.34"], None);
       obsLookupMs := 20; obsDial := fun _ => None;
       obsDialMs := fun port => if decide (port = "443") then 10500 else 40;
       obsFinalMs := 0 |}
  = {| monitor.Host := "example.org"; monitor.Success := false;
       monitor.Latency := 10500;
       monitor.Error := "Connection too slow: 10500ms (max acceptable: 10000ms)";
       monitor.Timestamp := sec 100 |}.
Proof. vm_compute. reflexivity. Qed.

(** Port 443 refused, port 80 accepted. *)
Example Ping_falls_back_to_port_80 :
  Ping "example.org"
    {| obsStart := sec 100; obsLookup := (["93.184.216.34"], None);
       obsLookupMs := 20;
       obsDial := fun port => if decide (port = "443") then Some "connection refused" else None;
       obsDialMs := fun port => if decide (port = "443") then 31 else 44;
       obsFinalMs := 0 |}
  = {| monitor.Host := "example.org"; monitor.Success := true;
       monitor.Latency := 44; monitor.Error := "";
       monitor.Timestamp := sec 100 |}.
Proof. vm_compute. reflexivity. Qed.

(** Two hosts, each down and then up again at its own time. *)
Example perhost_two_hosts :
  perhost.DowntimeEvents
    (perhost.calculateStats
       [round (sec 100) [down "A"; up "B"]; round (sec 130) [up "A"; down "B"];
        round (sec 160) [up "A"; up "B"]])
  = [ {| perhost.Host := "A"; perhost.StartTime := sec 100;
         perhost.EndTime := sec 130; perhost.Duration := 30 |};
      {| perhost.Host := "B"; perhost.StartTime := sec 130;
         perhost.EndTime := sec 160; perhost.Duration := 30 |} ].
Proof. vm_compute. reflexivity. Qed.
